(** * Message similarity clustering: a shallow embedding of the ingestion
    pipeline ([MessagesService.ingestMessage]) and of the cluster lifecycle
    ([ClustersService.actionCluster], [removeClusterMessage],
    [getSuggestedResponses]) over the relational schema of [db/init.sql].

    The store is the four tables [messages], [clusters], [cluster_messages]
    and [response_templates]; uuids are drawn from a counter [next_id].
    Every service method runs its SQL statements inside one transaction:
    the transaction body is a state-and-error computation ([Tx]) and a
    failure restores the store the transaction started from (ROLLBACK).
    The external collaborators (embedding provider, pg_trgm similarity and
    pgvector cosine distance) are section variables. *)

From Stdlib Require Import List String Ascii ZArith QArith Qround Bool Lia Lqa Sorted Permutation.
Import ListNotations.
Close Scope Q_scope.
Open Scope string_scope.
Open Scope nat_scope.

(** ** Data model (schema of [db/init.sql]) *)

(** A [vector(1536)] value as written by [toVectorLiteral]: each component
    printed with six decimals, i.e. an integer number of millionths. *)
Definition Vec := list Z.

Definition vec_eqb (a b : Vec) : bool :=
  if list_eq_dec Z.eq_dec a b then true else false.

Inductive ClusterStatus := Open | Actioned.

Record Message := mkMessage {
  m_id : nat;
  m_external_message_id : string;
  m_creator_id : string;
  m_channel_id : string;
  m_channel_cid : option string;
  m_visitor_user_id : option string;
  m_visitor_username : option string;
  m_text : string;
  m_embedding : option Vec;
  m_created_at : Z;
  m_replied_at : option Z;
  m_is_paid_dm : bool;
  m_raw_payload : option string
}.

Record Cluster := mkCluster {
  c_id : nat;
  c_creator_id : string;
  c_status : ClusterStatus;
  c_response_text : option string;
  c_created_at : Z;
  c_updated_at : Z
}.

(** A row of [cluster_messages].  The current schema has no [excluded_at]
    column: a membership is active exactly while its row exists (removal
    deletes the row), so the services' [excluded_at IS NULL] filters hold of
    every row. *)
Record ClusterMessage := mkClusterMessage {
  cm_cluster_id : nat;
  cm_message_id : nat;
  cm_created_at : Z
}.

Record ResponseTemplate := mkResponseTemplate {
  t_id : nat;
  t_creator_id : string;
  t_question_text : option string;
  t_question_embedding : Vec;
  t_response_text : string;
  t_usage_count : nat;
  t_last_used_at : Z;
  t_created_at : Z
}.

Record Store := mkStore {
  messages : list Message;
  clusters : list Cluster;
  cluster_messages : list ClusterMessage;
  response_templates : list ResponseTemplate;
  next_id : nat
}.

Definition empty_store : Store := mkStore [] [] [] [] 0.

(** ** Input and output of [ingestMessage] *)

Record IngestMessageInput := mkInput {
  in_creatorId : string;
  in_messageId : string;
  in_text : string;
  in_channelId : string;
  in_channelCid : option string;
  in_visitorUserId : option string;
  in_visitorUsername : option string;
  in_createdAt : option Z;
  in_isPaidDm : option bool;
  in_rawPayload : option string
}.

Inductive IngestResult :=
| Skipped (skipReason : string)
| Ingested (messageId : nat) (clusterId : nat)
           (matchedMessageId : option nat) (similarity : option Q).

(** ** The response-need filter ([needsResponse]) *)

(** A JS string (well-formed UTF-16, i.e. a sequence of Unicode scalar
    values) is held in a Rocq [string] as its UTF-8 encoding, byte by byte.
    [utf8_decode] recovers the code points; a byte that does not start a
    well-formed sequence (which no encoded JS string contains) decodes to
    U+FFFD. *)
Definition bytes_of (s : string) : list Z :=
  map (fun c => Z.of_nat (nat_of_ascii c)) (list_ascii_of_string s).

Definition string_of_bytes (l : list Z) : string :=
  string_of_list_ascii (map (fun b => ascii_of_nat (Z.to_nat b)) l).

Definition is_cont (b : Z) : bool := (128 <=? b)%Z && (b <=? 191)%Z.

Definition REPLACEMENT_CHAR : Z := 0xFFFD.

(** The code point of a two-, three- or four-byte sequence with lead byte
    [b0], if the sequence is well formed (no overlong form, no surrogate, no
    code point above U+10FFFF). *)
Definition utf8_seq2 (b0 b1 : Z) : option Z :=
  if is_cont b1 then Some ((b0 - 192) * 64 + (b1 - 128))%Z else None.

Definition utf8_seq3 (b0 b1 b2 : Z) : option Z :=
  if is_cont b1 && is_cont b2
     && (if (b0 =? 224)%Z then (160 <=? b1)%Z else true)
     && (if (b0 =? 237)%Z then (b1 <=? 159)%Z else true)
  then Some ((b0 - 224) * 4096 + (b1 - 128) * 64 + (b2 - 128))%Z
  else None.

Definition utf8_seq4 (b0 b1 b2 b3 : Z) : option Z :=
  if is_cont b1 && is_cont b2 && is_cont b3
     && (if (b0 =? 240)%Z then (144 <=? b1)%Z else true)
     && (if (b0 =? 244)%Z then (b1 <=? 143)%Z else true)
  then Some ((b0 - 240) * 262144 + (b1 - 128) * 4096 + (b2 - 128) * 64
             + (b3 - 128))%Z
  else None.

Fixpoint utf8_decode (l : list Z) : list Z :=
  match l with
  | [] => []
  | b0 :: r0 =>
      if (b0 <? 128)%Z then b0 :: utf8_decode r0
      else if (194 <=? b0)%Z && (b0 <=? 223)%Z then
        match r0 with
        | b1 :: r1 =>
            match utf8_seq2 b0 b1 with
            | Some c => c :: utf8_decode r1
            | None => REPLACEMENT_CHAR :: utf8_decode r0
            end
        | [] => REPLACEMENT_CHAR :: utf8_decode r0
        end
      else if (224 <=? b0)%Z && (b0 <=? 239)%Z then
        match r0 with
        | b1 :: b2 :: r2 =>
            match utf8_seq3 b0 b1 b2 with
            | Some c => c :: utf8_decode r2
            | None => REPLACEMENT_CHAR :: utf8_decode r0
            end
        | _ => REPLACEMENT_CHAR :: utf8_decode r0
        end
      else if (240 <=? b0)%Z && (b0 <=? 244)%Z then
        match r0 with
        | b1 :: b2 :: b3 :: r3 =>
            match utf8_seq4 b0 b1 b2 b3 with
            | Some c => c :: utf8_decode r3
            | None => REPLACEMENT_CHAR :: utf8_decode r0
            end
        | _ => REPLACEMENT_CHAR :: utf8_decode r0
        end
      else REPLACEMENT_CHAR :: utf8_decode r0
  end.

Definition utf8_encode_cp (c : Z) : list Z :=
  if (c <? 0x80)%Z then [c]
  else if (c <? 0x800)%Z then [192 + c / 64; 128 + c mod 64]%Z
  else if (c <? 0x10000)%Z then
    [224 + c / 4096; 128 + (c / 64) mod 64; 128 + c mod 64]%Z
  else [240 + c / 262144; 128 + (c / 4096) mod 64; 128 + (c / 64) mod 64;
        128 + c mod 64]%Z.

Definition utf8_encode (l : list Z) : list Z := flat_map utf8_encode_cp l.

(** The code points of ECMAScript's [WhiteSpace] and [LineTerminator], which
    both [String.prototype.trim] and the regular-expression class [\s]
    match. *)
Definition JS_SPACES : list Z :=
  [0x9; 0xA; 0xB; 0xC; 0xD; 0x20; 0xA0; 0x1680; 0x2028; 0x2029; 0x202F;
   0x205F; 0x3000; 0xFEFF]%Z.

Definition is_js_space (c : Z) : bool :=
  existsb (Z.eqb c) JS_SPACES || ((0x2000 <=? c)%Z && (c <=? 0x200A)%Z).

Fixpoint drop_spaces (l : list Z) : list Z :=
  match l with
  | [] => []
  | c :: r => if is_js_space c then drop_spaces r else l
  end.

Definition trim_cps (l : list Z) : list Z := rev (drop_spaces (rev (drop_spaces l))).

(** [String.prototype.trim]. *)
Definition trim (s : string) : string :=
  string_of_bytes (utf8_encode (trim_cps (utf8_decode (bytes_of s)))).

(** [.length] counts UTF-16 code units: two for a code point above U+FFFF. *)
Definition utf16_length (l : list Z) : nat :=
  fold_right (fun c n => if (0x10000 <=? c)%Z then S (S n) else S n) 0 l.

(** Case folding of a regular expression with the [i] flag and without the
    [u] flag: a character folds to another only if both are ASCII or both are
    not, so the only folds involving an ASCII letter are between its two
    cases. *)
Definition to_lower_cp (c : Z) : Z :=
  if (65 <=? c)%Z && (c <=? 90)%Z then (c + 32)%Z else c.

Definition to_lower (c : ascii) : ascii :=
  let n := nat_of_ascii c in
  if (65 <=? n) && (n <=? 90) then ascii_of_nat (n + 32) else c.

Definition lower (s : string) : string :=
  string_of_list_ascii (map to_lower (list_ascii_of_string s)).

Fixpoint strip_prefix (p s : list Z) : option (list Z) :=
  match p, s with
  | [], _ => Some s
  | a :: p', b :: s' => if Z.eqb a b then strip_prefix p' s' else None
  | _ :: _, [] => None
  end.

Fixpoint drop_bangs (l : list Z) : list Z :=
  match l with
  | c :: r => if Z.eqb c 33 then drop_bangs r else l
  | [] => []
  end.

(** The tail [!*\.?$] of the acknowledgement patterns. *)
Definition bangs_dot_end (l : list Z) : bool :=
  match drop_bangs l with
  | [] => true
  | [c] => Z.eqb c 46
  | _ => false
  end.

(** [/^(w1|w2|...)!*\.?$/i], the words being lower-case ASCII. *)
Definition ack_pattern (words : list string) (l : list Z) : bool :=
  let ls := map to_lower_cp l in
  existsb (fun w => match strip_prefix (bytes_of w) ls with
                    | Some rest => bangs_dot_end rest
                    | None => false
                    end) words.

(** The code points with the Unicode property [Emoji] (Unicode 15.1,
    emoji-data.txt), as inclusive ranges. *)
Definition EMOJI_RANGES : list (Z * Z) := [
  (0x23, 0x23); (0x2A, 0x2A); (0x30, 0x39); (0xA9, 0xA9); (0xAE, 0xAE);
  (0x203C, 0x203C); (0x2049, 0x2049); (0x2122, 0x2122); (0x2139, 0x2139);
  (0x2194, 0x2199); (0x21A9, 0x21AA); (0x231A, 0x231B); (0x2328, 0x2328);
  (0x23CF, 0x23CF); (0x23E9, 0x23F3); (0x23F8, 0x23FA); (0x24C2, 0x24C2);
  (0x25AA, 0x25AB); (0x25B6, 0x25B6); (0x25C0, 0x25C0); (0x25FB, 0x25FE);
  (0x2600, 0x2604); (0x260E, 0x260E); (0x2611, 0x2611); (0x2614, 0x2615);
  (0x2618, 0x2618); (0x261D, 0x261D); (0x2620, 0x2620); (0x2622, 0x2623);
  (0x2626, 0x2626); (0x262A, 0x262A); (0x262E, 0x262F); (0x2638, 0x263A);
  (0x2640, 0x2640); (0x2642, 0x2642); (0x2648, 0x2653); (0x265F, 0x2660);
  (0x2663, 0x2663); (0x2665, 0x2666); (0x2668, 0x2668); (0x267B, 0x267B);
  (0x267E, 0x267F); (0x2692, 0x2697); (0x2699, 0x2699); (0x269B, 0x269C);
  (0x26A0, 0x26A1); (0x26A7, 0x26A7); (0x26AA, 0x26AB); (0x26B0, 0x26B1);
  (0x26BD, 0x26BE); (0x26C4, 0x26C5); (0x26C8, 0x26C8); (0x26CE, 0x26CF);
  (0x26D1, 0x26D1); (0x26D3, 0x26D4); (0x26E9, 0x26EA); (0x26F0, 0x26F5);
  (0x26F7, 0x26FA); (0x26FD, 0x26FD); (0x2702, 0x2702); (0x2705, 0x2705);
  (0x2708, 0x270D); (0x270F, 0x270F); (0x2712, 0x2712); (0x2714, 0x2714);
  (0x2716, 0x2716); (0x271D, 0x271D); (0x2721, 0x2721); (0x2728, 0x2728);
  (0x2733, 0x2734); (0x2744, 0x2744); (0x2747, 0x2747); (0x274C, 0x274C);
  (0x274E, 0x274E); (0x2753, 0x2755); (0x2757, 0x2757); (0x2763, 0x2764);
  (0x2795, 0x2797); (0x27A1, 0x27A1); (0x27B0, 0x27B0); (0x27BF, 0x27BF);
  (0x2934, 0x2935); (0x2B05, 0x2B07); (0x2B1B, 0x2B1C); (0x2B50, 0x2B50);
  (0x2B55, 0x2B55); (0x3030, 0x3030); (0x303D, 0x303D); (0x3297, 0x3297);
  (0x3299, 0x3299); (0x1F004, 0x1F004); (0x1F0CF, 0x1F0CF);
  (0x1F170, 0x1F171); (0x1F17E, 0x1F17F); (0x1F18E, 0x1F18E);
  (0x1F191, 0x1F19A); (0x1F1E6, 0x1F1FF); (0x1F201, 0x1F202);
  (0x1F21A, 0x1F21A); (0x1F22F, 0x1F22F); (0x1F232, 0x1F23A);
  (0x1F250, 0x1F251); (0x1F300, 0x1F321); (0x1F324, 0x1F393);
  (0x1F396, 0x1F397); (0x1F399, 0x1F39B); (0x1F39E, 0x1F3F0);
  (0x1F3F3, 0x1F3F5); (0x1F3F7, 0x1F4FD); (0x1F4FF, 0x1F53D);
  (0x1F549, 0x1F54E); (0x1F550, 0x1F567); (0x1F56F, 0x1F570);
  (0x1F573, 0x1F57A); (0x1F587, 0x1F587); (0x1F58A, 0x1F58D);
  (0x1F590, 0x1F590); (0x1F595, 0x1F596); (0x1F5A4, 0x1F5A5);
  (0x1F5A8, 0x1F5A8); (0x1F5B1, 0x1F5B2); (0x1F5BC, 0x1F5BC);
  (0x1F5C2, 0x1F5C4); (0x1F5D1, 0x1F5D3); (0x1F5DC, 0x1F5DE);
  (0x1F5E1, 0x1F5E1); (0x1F5E3, 0x1F5E3); (0x1F5E8, 0x1F5E8);
  (0x1F5EF, 0x1F5EF); (0x1F5F3, 0x1F5F3); (0x1F5FA, 0x1F64F);
  (0x1F680, 0x1F6C5); (0x1F6CB, 0x1F6D2); (0x1F6D5, 0x1F6D7);
  (0x1F6DC, 0x1F6E5); (0x1F6E9, 0x1F6E9); (0x1F6EB, 0x1F6EC);
  (0x1F6F0, 0x1F6F0); (0x1F6F3, 0x1F6FC); (0x1F7E0, 0x1F7EB);
  (0x1F7F0, 0x1F7F0); (0x1F90C, 0x1F93A); (0x1F93C, 0x1F945);
  (0x1F947, 0x1F9FF); (0x1FA70, 0x1FA7C); (0x1FA80, 0x1FA88);
  (0x1FA90, 0x1FABD); (0x1FABF, 0x1FAC5); (0x1FACE, 0x1FADB);
  (0x1FAE0, 0x1FAE8); (0x1FAF0, 0x1FAF8)
]%Z.

Definition is_emoji (c : Z) : bool :=
  existsb (fun r => (fst r <=? c)%Z && (c <=? snd r)%Z) EMOJI_RANGES.

(** [/^[\p{Emoji}\s]+$/u]. *)
Definition emoji_only (l : list Z) : bool :=
  negb (match l with [] => true | _ => false end) &&
  forallb (fun c => is_emoji c || is_js_space c) l.

Definition NO_RESPONSE_PATTERNS : list (list Z -> bool) :=
  [ ack_pattern ["thanks"; "thank you"; "thx"; "ty"; "tysm"];
    ack_pattern ["ok"; "okay"; "k"; "kk"; "got it"; "sounds good"; "perfect";
                 "great"; "awesome"; "cool"; "nice"];
    ack_pattern ["yes"; "no"; "yep"; "nope"; "yea"; "yeah"; "nah"];
    emoji_only ].

Definition MIN_RESPONSE_LENGTH := 5.

(** The trimmed code points of a text. *)
Definition trimmed_cps (text : string) : list Z := trim_cps (utf8_decode (bytes_of text)).

Definition needsResponse (text : string) : bool :=
  let trimmed := trimmed_cps text in
  if utf16_length trimmed <? MIN_RESPONSE_LENGTH then false
  else if existsb (fun p => p trimmed) NO_RESPONSE_PATTERNS then false
  else true.

(** A Unicode scalar value: a code point that is not a surrogate. *)
Definition is_scalar (c : Z) : bool :=
  (0 <=? c)%Z && (c <=? 0x10FFFF)%Z && negb ((0xD800 <=? c)%Z && (c <=? 0xDFFF)%Z).

(** The JS string with the given code points, as a Rocq string. *)
Definition js_string (l : list Z) : string := string_of_bytes (utf8_encode l).

(** ** Thresholds *)

Definition SIMILARITY_THRESHOLD : Q := 9 # 10.
Definition TRIGRAM_THRESHOLD : Q := 85 # 100.
Definition SUGGESTION_THRESHOLD : Q := 8 # 10.

Definition Qltb (x y : Q) : bool := negb (Qle_bool y x).

(** ** Errors and the transaction monad *)

Inductive DbError :=
| ErrNotFound (what : string)
| ErrConstraint (what : string)
| ErrEmbedding
| ErrValidation (what : string).

(** A transaction body: reads and writes the store, may fail, and records
    the texts it sends to the embedding provider (an external call that a
    ROLLBACK does not undo). *)
Definition Tx (A : Type) : Type := Store -> list string * (DbError + (A * Store)).

Definition tx_ret {A} (a : A) : Tx A := fun st => ([], inr (a, st)).

Definition tx_bind {A B} (m : Tx A) (k : A -> Tx B) : Tx B :=
  fun st =>
    match m st with
    | (log1, inl e) => (log1, inl e)
    | (log1, inr (a, st1)) =>
        match k a st1 with
        | (log2, r) => ((log1 ++ log2)%list, r)
        end
    end.

Definition tx_fail {A} (e : DbError) : Tx A := fun _ => ([], inl e).

Definition tx_read {A} (f : Store -> A) : Tx A := fun st => ([], inr (f st, st)).

Definition tx_modify (f : Store -> Store) : Tx unit := fun st => ([], inr (tt, f st)).

Notation "c1 ;; c2" := (tx_bind c1 (fun _ => c2))
  (at level 61, right associativity).
Notation "x <- c1 ;; c2" := (tx_bind c1 (fun x => c2))
  (at level 61, c1 at next level, right associativity).
Notation "' p <- c1 ;; c2" := (tx_bind c1 (fun x => match x with p => c2 end))
  (at level 61, p pattern, c1 at next level, right associativity).

(** [BEGIN ... COMMIT], with [ROLLBACK] on any error: the result store is
    the committed one, or the initial one when the body failed. *)
Definition run_tx {A} (t : Tx A) (st : Store) : list string * Store * (DbError + A) :=
  match t st with
  | (log, inl e) => (log, st, inl e)
  | (log, inr (a, st')) => (log, st', inr a)
  end.

(** ** Queries over the store *)

(** [ORDER BY ... LIMIT 1]: the first row that no later row strictly beats
    (ties resolved by store order). *)
Fixpoint first_best {A} (better : A -> A -> bool) (l : list A) : option A :=
  match l with
  | [] => None
  | x :: r =>
      match first_best better r with
      | None => Some x
      | Some y => if better y x then Some y else Some x
      end
  end.

Definition find_message (st : Store) (id : nat) : option Message :=
  find (fun m => m_id m =? id) (messages st).

Definition find_cluster (st : Store) (id : nat) : option Cluster :=
  find (fun c => c_id c =? id) (clusters st).

(** [LEFT JOIN cluster_messages cm ON cm.message_id = m.id]. *)
Definition cluster_of (st : Store) (mid : nat) : option nat :=
  option_map cm_cluster_id
    (find (fun cm => cm_message_id cm =? mid) (cluster_messages st)).

(** [(c.status IS NULL OR c.status = 'open')] after
    [LEFT JOIN clusters c ON c.id = cm.cluster_id]. *)
Definition cluster_open_or_null (st : Store) (mid : nat) : bool :=
  match cluster_of st mid with
  | None => true
  | Some c =>
      match find_cluster st c with
      | None => true
      | Some cl => match c_status cl with Open => true | Actioned => false end
      end
  end.

(** The message ids of the active memberships of cluster [c]. *)
Definition members (st : Store) (c : nat) : list nat :=
  map cm_message_id (filter (fun cm => cm_cluster_id cm =? c) (cluster_messages st)).

(** The member messages of [c]:
    [cluster_messages cm JOIN messages m ON cm.message_id = m.id WHERE cm.cluster_id = c]. *)
Definition member_rows (st : Store) (c : nat) : list Message :=
  flat_map (fun cm => filter (fun m => m_id m =? cm_message_id cm) (messages st))
    (filter (fun cm => cm_cluster_id cm =? c) (cluster_messages st)).

(** [ORDER BY m.created_at ASC LIMIT 1] over the member rows. *)
Definition earliest_member (st : Store) (c : nat) : option Message :=
  first_best (fun a b => (m_created_at a <? m_created_at b)%Z) (member_rows st c).

Definition is_some {A} (o : option A) : bool :=
  match o with Some _ => true | None => false end.

Section Collaborators.

(** The embedding provider: [None] is a provider failure. *)
Variable embed : string -> option Vec.
(** pg_trgm's [similarity(a, b)]. *)
Variable trgm_similarity : string -> string -> Q.
(** pgvector's cosine distance [a <=> b]. *)
Variable cosine_distance : Vec -> Vec -> Q.

Record TrigramMatchRow := mkTrigramMatchRow {
  tm_id : nat;
  tm_cluster_id : option nat;
  tm_trgm_similarity : Q;
  tm_cluster_has_embeddings : bool
}.

(** [EXISTS (SELECT 1 FROM cluster_messages cm2 JOIN messages m2 ...
    WHERE cm2.cluster_id = cm.cluster_id AND m2.embedding IS NOT NULL
    AND m2.id <> m.id)]; false when [cm.cluster_id] is NULL. *)
Definition cluster_has_embeddings (st : Store) (c : option nat) (mid : nat) : bool :=
  match c with
  | None => false
  | Some c =>
      existsb (fun m2 => negb (m_id m2 =? mid) && is_some (m_embedding m2))
        (member_rows st c)
  end.

Definition trigram_candidates (st : Store) (creator text : string) : list TrigramMatchRow :=
  map (fun m => mkTrigramMatchRow (m_id m) (cluster_of st (m_id m))
                  (trgm_similarity (m_text m) text)
                  (cluster_has_embeddings st (cluster_of st (m_id m)) (m_id m)))
    (filter (fun m =>
               String.eqb (m_creator_id m) creator
               && negb (is_some (m_replied_at m))
               && negb (m_is_paid_dm m)
               && Qltb TRIGRAM_THRESHOLD (trgm_similarity (m_text m) text)
               && cluster_open_or_null st (m_id m))
       (messages st)).

(** Step 1's query: [ORDER BY similarity(m.text, $1) DESC LIMIT 1]. *)
Definition trigram_query (st : Store) (creator text : string) : option TrigramMatchRow :=
  first_best (fun a b => Qltb (tm_trgm_similarity b) (tm_trgm_similarity a))
    (trigram_candidates st creator text).

Record MatchRow := mkMatchRow {
  mr_id : nat;
  mr_cluster_id : option nat;
  mr_distance : Q
}.

Definition mr_similarity (r : MatchRow) : Q := (1 - mr_distance r)%Q.

Definition vector_candidates (st : Store) (creator : string) (e : Vec) (self : nat)
  : list MatchRow :=
  flat_map (fun m =>
      match m_embedding m with
      | Some em =>
          if String.eqb (m_creator_id m) creator
             && negb (is_some (m_replied_at m))
             && negb (m_is_paid_dm m)
             && negb (m_id m =? self)
             && cluster_open_or_null st (m_id m)
          then [mkMatchRow (m_id m) (cluster_of st (m_id m)) (cosine_distance em e)]
          else []
      | None => []
      end)
    (messages st).

(** Step 4's query: [ORDER BY m.embedding <=> $1 LIMIT 1]. *)
Definition vector_query (st : Store) (creator : string) (e : Vec) (self : nat)
  : option MatchRow :=
  first_best (fun a b => Qltb (mr_distance a) (mr_distance b))
    (vector_candidates st creator e self).


(** ** Writes *)

(** [INSERT INTO messages (...) VALUES (...) RETURNING id]. *)
Definition insert_message (st : Store) (mk : nat -> Message) : nat * Store :=
  let id := next_id st in
  (id, mkStore (messages st ++ [mk id]) (clusters st) (cluster_messages st)
               (response_templates st) (S id)).

(** [INSERT INTO clusters (creator_id) VALUES ($1) RETURNING id]. *)
Definition insert_cluster (st : Store) (creator : string) (now : Z) : nat * Store :=
  let id := next_id st in
  (id, mkStore (messages st) (clusters st ++ [mkCluster id creator Open None now now])
               (cluster_messages st) (response_templates st) (S id)).

(** [INSERT INTO cluster_messages (cluster_id, message_id) VALUES ($1, $2)],
    checked against [PRIMARY KEY (cluster_id, message_id)],
    [UNIQUE (message_id)] and both foreign keys. *)
Definition insert_cluster_message (st : Store) (c m : nat) (now : Z) : option Store :=
  if is_some (find_cluster st c) && is_some (find_message st m)
     && negb (existsb (fun cm => cm_message_id cm =? m) (cluster_messages st))
  then Some (mkStore (messages st) (clusters st)
                     (cluster_messages st ++ [mkClusterMessage c m now])
                     (response_templates st) (next_id st))
  else None.

Definition tx_insert_message (mk : nat -> Message) : Tx nat :=
  fun st => let (id, st') := insert_message st mk in ([], inr (id, st')).

Definition tx_insert_cluster (creator : string) (now : Z) : Tx nat :=
  fun st => let (id, st') := insert_cluster st creator now in ([], inr (id, st')).

Definition tx_insert_cluster_message (c m : nat) (now : Z) : Tx unit :=
  fun st => match insert_cluster_message st c m now with
            | Some st' => ([], inr (tt, st'))
            | None => ([], inl (ErrConstraint "cluster_messages"))
            end.

(** [this.embeddings.embed(text)]. *)
Definition tx_embed (text : string) : Tx Vec :=
  fun st => ([text], match embed text with
                     | Some v => inr (v, st)
                     | None => inl ErrEmbedding
                     end).

(** [s || null] on an optional text input: [undefined] and [''] are stored
    as NULL. *)
Definition or_null (o : option string) : option string :=
  match o with
  | Some s => if String.eqb s "" then None else Some s
  | None => None
  end.

(** ** [MessagesService.ingestMessage] *)

Definition ingest_tx (input : IngestMessageInput) (now : Z) : Tx IngestResult :=
  let isPaidDm := match in_isPaidDm input with Some true => true | _ => false end in
  let createdAt := match in_createdAt input with Some t => t | None => now end in
  let creator := in_creatorId input in
  let text := in_text input in
  (* Step 1: near-exact trigram match, before calling the embedding API *)
  ' (matched0, sim0, cluster0, skippedEmbedding) <-
    (if isPaidDm then tx_ret (None, None, None, false)
     else
       trigramMatch <- tx_read (fun st => trigram_query st creator text) ;;
       tx_ret (match trigramMatch with
               | Some row =>
                   (Some (tm_id row), Some (tm_trgm_similarity row), tm_cluster_id row,
                    match tm_cluster_id row with
                    | Some _ => tm_cluster_has_embeddings row
                    | None => false
                    end)
               | None => (None, None, None, false)
               end)) ;;
  (* Step 2: get the embedding unless skipped *)
  embeddingLiteral <-
    (if skippedEmbedding then tx_ret None
     else v <- tx_embed text ;; tx_ret (Some v)) ;;
  (* Step 3: insert the message *)
  messageId <-
    tx_insert_message (fun id =>
      mkMessage id (in_messageId input) creator (in_channelId input)
        (or_null (in_channelCid input)) (or_null (in_visitorUserId input))
        (or_null (in_visitorUsername input))
        text embeddingLiteral createdAt None isPaidDm (in_rawPayload input)) ;;
  (* Step 4: vector similarity when no cluster was found via trigram *)
  ' (matched1, sim1, cluster1) <-
    match cluster0, isPaidDm, embeddingLiteral with
    | None, false, Some e =>
        vm <- tx_read (fun st => vector_query st creator e messageId) ;;
        match vm with
        | Some row =>
            if Qle_bool SIMILARITY_THRESHOLD (mr_similarity row) then
              match mr_cluster_id row with
              | Some c => tx_ret (Some (mr_id row), Some (mr_similarity row), Some c)
              | None =>
                  (* matched message not in a cluster: create one and add both *)
                  c <- tx_insert_cluster creator now ;;
                  tx_insert_cluster_message c (mr_id row) now ;;
                  tx_ret (Some (mr_id row), Some (mr_similarity row), Some c)
              end
            else tx_ret (matched0, sim0, cluster0)
        | None => tx_ret (matched0, sim0, cluster0)
        end
    | _, _, _ => tx_ret (matched0, sim0, cluster0)
    end ;;
  (* Step 5: new cluster if still none assigned *)
  clusterId <-
    match cluster1 with
    | Some c => tx_ret c
    | None => tx_insert_cluster creator now
    end ;;
  (* Step 6: add the message to the cluster *)
  tx_insert_cluster_message clusterId messageId now ;;
  tx_ret (Ingested messageId clusterId matched1 sim1).

(** The log lists the texts sent to the embedding provider. *)
Definition ingestMessage (st : Store) (input : IngestMessageInput) (now : Z)
  : list string * Store * (DbError + IngestResult) :=
  if negb (needsResponse (in_text input))
  then ([], st, inr (Skipped "no_response_needed"))
  else run_tx (ingest_tx input now) st.

(** ** [ClustersService.actionCluster] *)

(** [SELECT id, usage_count FROM response_templates WHERE creator_id = $1
    AND response_text = $2 AND question_embedding = $3 LIMIT 1]; a NULL
    embedding compares unknown, so no row matches it. *)
Definition find_template (st : Store) (creator text : string) (emb : option Vec)
  : option ResponseTemplate :=
  match emb with
  | None => None
  | Some e =>
      find (fun t => String.eqb (t_creator_id t) creator
                     && String.eqb (t_response_text t) text
                     && vec_eqb (t_question_embedding t) e)
        (response_templates st)
  end.

(** [UPDATE response_templates SET usage_count = usage_count + 1,
    last_used_at = now() WHERE id = $1]. *)
Definition bump_row (id : nat) (now : Z) (t : ResponseTemplate) : ResponseTemplate :=
  if t_id t =? id
  then mkResponseTemplate (t_id t) (t_creator_id t) (t_question_text t)
         (t_question_embedding t) (t_response_text t)
         (S (t_usage_count t)) now (t_created_at t)
  else t.

Definition bump_template (id : nat) (now : Z) (st : Store) : Store :=
  mkStore (messages st) (clusters st) (cluster_messages st)
    (map (bump_row id now) (response_templates st)) (next_id st).

(** [INSERT INTO response_templates (...) VALUES ($1, $2, $3, 1, now())]. *)
Definition insert_template (creator : string) (e : Vec) (text : string) (now : Z)
    (st : Store) : Store :=
  let id := next_id st in
  mkStore (messages st) (clusters st) (cluster_messages st)
    (response_templates st ++ [mkResponseTemplate id creator None e text 1 now now])
    (S id).

(** [question_embedding] is [NOT NULL]: inserting a NULL embedding fails. *)
Definition tx_insert_template (creator : string) (emb : option Vec) (text : string)
    (now : Z) : Tx unit :=
  fun st =>
    match emb with
    | None => ([], inl (ErrConstraint "response_templates.question_embedding"))
    | Some e => ([], inr (tt, insert_template creator e text now st))
    end.

(** [DELETE FROM messages WHERE id IN (SELECT message_id FROM cluster_messages
    WHERE cluster_id = $1)], with the [ON DELETE CASCADE] on
    [cluster_messages.message_id]. *)
Definition delete_member_messages (c : nat) (st : Store) : Store :=
  let ids := members st c in
  mkStore (filter (fun m => negb (existsb (Nat.eqb (m_id m)) ids)) (messages st))
          (clusters st)
          (filter (fun cm => negb (existsb (Nat.eqb (cm_message_id cm)) ids))
             (cluster_messages st))
          (response_templates st) (next_id st).

(** [DELETE FROM clusters WHERE id = $1], with the [ON DELETE CASCADE] on
    [cluster_messages.cluster_id]. *)
Definition delete_cluster (c : nat) (st : Store) : Store :=
  mkStore (messages st)
          (filter (fun cl => negb (c_id cl =? c)) (clusters st))
          (filter (fun cm => negb (cm_cluster_id cm =? c)) (cluster_messages st))
          (response_templates st) (next_id st).

(** Step 1's query: [clusters c JOIN cluster_messages cm JOIN messages m
    WHERE c.id = $1 ORDER BY m.created_at ASC LIMIT 1], giving
    [c.creator_id] and [m.embedding]. *)
Definition action_cluster_data (st : Store) (id : nat) : option (string * option Vec) :=
  match find_cluster st id with
  | None => None
  | Some cl =>
      match earliest_member st id with
      | Some m => Some (c_creator_id cl, m_embedding m)
      | None => None
      end
  end.

Definition action_tx (id : nat) (responseText : string) (now : Z) : Tx unit :=
  clusterData <- tx_read (fun st => action_cluster_data st id) ;;
  match clusterData with
  | None => tx_fail (ErrNotFound "Cluster not found")
  | Some (creator_id, embedding) =>
      existingTemplate <- tx_read (fun st => find_template st creator_id responseText embedding) ;;
      match existingTemplate with
      | Some t => tx_modify (bump_template (t_id t) now)
      | None => tx_insert_template creator_id embedding responseText now
      end ;;
      tx_modify (delete_member_messages id) ;;
      tx_modify (delete_cluster id)
  end.

(** The returned snapshot of the deleted cluster. *)
Definition actioned_snapshot (id : nat) (responseText : string) (now : Z) : Cluster :=
  mkCluster id "" Actioned (Some responseText) now now.

Definition actionCluster (st : Store) (id : nat) (responseText : string)
    (channelIds : list string) (now : Z) : Store * (DbError + Cluster) :=
  match channelIds with
  | [] => (st, inl (ErrValidation "At least one channel must be selected"))
  | _ :: _ =>
      match run_tx (action_tx id responseText now) st with
      | (_, st', inl e) => (st', inl e)
      | (_, st', inr tt) => (st', inr (actioned_snapshot id responseText now))
      end
  end.

(** ** [ClustersService.removeClusterMessage] *)

Definition delete_membership (c m : nat) (st : Store) : Store :=
  mkStore (messages st) (clusters st)
    (filter (fun cm => negb ((cm_cluster_id cm =? c) && (cm_message_id cm =? m)))
       (cluster_messages st))
    (response_templates st) (next_id st).

(** [UPDATE clusters SET updated_at = now() WHERE id = $1]. *)
Definition touch_cluster (c : nat) (now : Z) (st : Store) : Store :=
  mkStore (messages st)
    (map (fun cl => if c_id cl =? c
                    then mkCluster (c_id cl) (c_creator_id cl) (c_status cl)
                           (c_response_text cl) (c_created_at cl) now
                    else cl)
       (clusters st))
    (cluster_messages st) (response_templates st) (next_id st).

(** Returns [None] when the cluster was deleted, [Some clusterId] otherwise. *)
Definition remove_tx (clusterId messageId : nat) (now : Z) : Tx (option nat) :=
  deleted <- tx_read (fun st =>
               List.length (filter (fun cm => (cm_cluster_id cm =? clusterId)
                                         && (cm_message_id cm =? messageId))
                         (cluster_messages st))) ;;
  match deleted with
  | O => tx_fail (ErrNotFound "Message not found in cluster")
  | S _ =>
      tx_modify (delete_membership clusterId messageId) ;;
      has_messages <- tx_read (fun st =>
                        existsb (fun cm => cm_cluster_id cm =? clusterId)
                          (cluster_messages st)) ;;
      if has_messages
      then tx_modify (touch_cluster clusterId now) ;; tx_ret (Some clusterId)
      else tx_modify (delete_cluster clusterId) ;; tx_ret None
  end.

Definition removeClusterMessage (st : Store) (clusterId messageId : nat) (now : Z)
  : Store * (DbError + option nat) :=
  match run_tx (remove_tx clusterId messageId now) st with
  | (_, st', r) => (st', r)
  end.

(** ** [ClustersService.getSuggestedResponses] *)

Record SuggestionRow := mkSuggestionRow {
  sr_template : ResponseTemplate;
  sr_similarity : Q
}.

(** [ORDER BY similarity DESC, usage_count DESC, last_used_at DESC]:
    [a] sorts strictly before [b]. *)
Definition suggestion_before (a b : SuggestionRow) : bool :=
  Qltb (sr_similarity b) (sr_similarity a)
  || (Qeq_bool (sr_similarity a) (sr_similarity b)
      && ((t_usage_count (sr_template b) <? t_usage_count (sr_template a))
          || ((t_usage_count (sr_template a) =? t_usage_count (sr_template b))
              && (t_last_used_at (sr_template b) <? t_last_used_at (sr_template a))%Z))).

Fixpoint insert_row (x : SuggestionRow) (l : list SuggestionRow) : list SuggestionRow :=
  match l with
  | [] => [x]
  | y :: r => if suggestion_before x y then x :: y :: r else y :: insert_row x r
  end.

Fixpoint sort_rows (l : list SuggestionRow) : list SuggestionRow :=
  match l with
  | [] => []
  | x :: r => insert_row x (sort_rows r)
  end.

(** [SELECT response_text, (1 - (question_embedding <=> $1)) AS similarity
    FROM response_templates WHERE creator_id = $2
    AND (1 - (question_embedding <=> $1)) > 0.8 ORDER BY ... LIMIT 3]. *)
Definition suggestion_query (st : Store) (e : Vec) (creatorId : string)
  : list SuggestionRow :=
  firstn 3
    (sort_rows
       (filter (fun r => Qltb SUGGESTION_THRESHOLD (sr_similarity r))
          (map (fun t => mkSuggestionRow t (1 - cosine_distance (t_question_embedding t) e)%Q)
             (filter (fun t => String.eqb (t_creator_id t) creatorId)
                (response_templates st))))).

(** The rows behind [getSuggestedResponses]: empty when the earliest member
    has no embedding. *)
Definition suggestion_rows (st : Store) (clusterId : nat) (creatorId : string)
  : list SuggestionRow :=
  match earliest_member st clusterId with
  | Some m =>
      match m_embedding m with
      | Some e => suggestion_query st e creatorId
      | None => []
      end
  | None => []
  end.

(** [Number(similarity.toFixed(3))]. *)
Definition round3 (q : Q) : Q := Qmake (Qfloor (q * (1000 # 1) + (1 # 2))%Q) 1000%positive.

Definition getSuggestedResponses (st : Store) (clusterId : nat) (creatorId : string)
  : list (string * Q) :=
  map (fun r => (t_response_text (sr_template r), round3 (sr_similarity r)))
    (suggestion_rows st clusterId creatorId).

(** ** Reachable stores

    Every service mutation is one atomic transaction; a failed one leaves
    the store as it was. *)

Definition ingest_post (st : Store) (input : IngestMessageInput) (now : Z) : Store :=
  match ingestMessage st input now with (_, st', _) => st' end.

Inductive op_step : Store -> Store -> Prop :=
| step_ingest st input now : op_step st (ingest_post st input now)
| step_action st id text channelIds now :
    op_step st (fst (actionCluster st id text channelIds now))
| step_remove st clusterId messageId now :
    op_step st (fst (removeClusterMessage st clusterId messageId now)).

Inductive steps : Store -> Store -> Prop :=
| steps_refl st : steps st st
| steps_cons st st1 st2 : op_step st st1 -> steps st1 st2 -> steps st st2.

Definition reachable (st : Store) : Prop := steps empty_store st.

End Collaborators.

(** ** Concrete collaborators for the scenarios *)

(** A deterministic embedding: the character codes of the text. *)
Definition codes (s : string) : Vec :=
  map (fun c => Z.of_nat (nat_of_ascii c)) (list_ascii_of_string s).
Definition embed_codes (s : string) : option Vec := Some (codes s).

(** An embedding provider that is down. *)
Definition embed_down (s : string) : option Vec := None.

(** Trigram and cosine scores under which only identical texts (vectors) are
    similar. *)
Definition trgm_exact (a b : string) : Q := if String.eqb a b then 1%Q else 0%Q.
Definition cosd_exact (a b : Vec) : Q := if vec_eqb a b then 0%Q else 1%Q.

(** Near-duplicate texts: trigram similarity 0.9, cosine similarity 0.8. *)
Definition trgm_near (a b : string) : Q := if String.eqb a b then 1%Q else (9 # 10)%Q.
Definition cosd_near (a b : Vec) : Q := if vec_eqb a b then 0%Q else (1 # 5)%Q.

Definition CREATOR := "creator-x".

Definition free_input (ext text channel : string) (t : Z) : IngestMessageInput :=
  mkInput CREATOR ext text channel None None None (Some t) (Some false) None.

Definition paid_input (ext text channel : string) (t : Z) : IngestMessageInput :=
  mkInput CREATOR ext text channel None None None (Some t) (Some true) None.

Definition QUESTION := "How much do you charge?".

(** Scenario for the supersede rule: channel-1 asks the same question twice. *)
Definition sup_1 : Store :=
  ingest_post embed_codes trgm_exact cosd_exact empty_store
    (free_input "ext-1" QUESTION "channel-1" 10) 100.
Definition sup_2 : Store :=
  ingest_post embed_codes trgm_exact cosd_exact sup_1
    (free_input "ext-2" QUESTION "channel-1" 20) 101.

(** The channels of the members of cluster [c]. *)
Definition member_channels (st : Store) (c : nat) : list string :=
  map m_channel_id (member_rows st c).

(** Scenario for cluster resolution: a message removed from its cluster is
    later the lexical match of a near-duplicate. *)
Definition res_1 : Store :=
  ingest_post embed_codes trgm_near cosd_near empty_store
    (free_input "ext-1" QUESTION "channel-1" 10) 100.
Definition res_2 : Store := fst (removeClusterMessage res_1 1 0 101).
Definition res_input : IngestMessageInput :=
  free_input "ext-2" "How much do you charge??" "channel-2" 20.

(** Scenario with a lexically joined, unembedded, backdated member. *)
Definition lex_1 : Store :=
  ingest_post embed_codes trgm_exact cosd_exact empty_store
    (free_input "ext-1" QUESTION "channel-1" 10) 100.
Definition lex_2 : Store :=
  ingest_post embed_codes trgm_exact cosd_exact lex_1
    (free_input "ext-2" QUESTION "channel-2" 20) 101.
Definition lex_3 : Store :=
  ingest_post embed_codes trgm_exact cosd_exact lex_2
    (free_input "ext-3" QUESTION "channel-3" 5) 102.

(** Scenario with two clusters whose earliest members have different
    embeddings. *)
Definition two_1 : Store :=
  ingest_post embed_codes trgm_exact cosd_exact empty_store
    (free_input "ext-1" QUESTION "channel-1" 10) 100.
Definition two_2 : Store :=
  ingest_post embed_codes trgm_exact cosd_exact two_1
    (free_input "ext-2" "What is your rate for a shoutout?" "channel-2" 20) 101.
Definition two_3 : Store := fst (actionCluster two_2 1 "Thanks!" ["channel-1"] 102).
Definition two_4 : Store := fst (actionCluster two_3 3 "Thanks!" ["channel-2"] 103).

Definition template_key (creator text : string) (e : Vec) (t : ResponseTemplate) : bool :=
  String.eqb (t_creator_id t) creator && String.eqb (t_response_text t) text
  && vec_eqb (t_question_embedding t) e.

(** The upsert performed by [actionCluster] on the template table. *)
Definition upsert_template (st : Store) (creator txt : string) (e : Vec) (now : Z) : Store :=
  match find_template st creator txt (Some e) with
  | Some t => bump_template (t_id t) now st
  | None => insert_template creator e txt now st
  end.

(** Scenario of two clusters answered with the same text whose earliest
    members have the same embedding. *)
Definition dup_1 : Store :=
  ingest_post embed_codes trgm_exact cosd_exact empty_store
    (free_input "ext-1" QUESTION "channel-1" 10) 100.
Definition dup_2 : Store := fst (actionCluster dup_1 1 "Thanks!" ["channel-1"] 101).
Definition dup_3 : Store :=
  ingest_post embed_codes trgm_exact cosd_exact dup_2
    (free_input "ext-2" QUESTION "channel-2" 20) 102.
Definition dup_4 : Store := fst (actionCluster dup_3 4 "Thanks!" ["channel-2"] 103).

(** Scenario of a paid message with the text of an open cluster. *)
Definition paid_in : IngestMessageInput := paid_input "ext-4" QUESTION "channel-4" 30.
Definition paid_1 : Store := ingest_post embed_codes trgm_exact cosd_exact lex_2 paid_in 103.

(** ** Invariants and properties of transactions *)

(** [t] keeps [P] on every committed run. *)
Definition tx_preserves {A} (P : Store -> Prop) (t : Tx A) : Prop :=
  forall st log a st', P st -> t st = (log, inr (a, st')) -> P st'.

(** [t] never calls the embedding provider. *)
Definition tx_quiet {A} (t : Tx A) : Prop := forall st, fst (t st) = [].

(** [UNIQUE (message_id)] on [cluster_messages]: a message is in at most one
    cluster. *)
Definition one_cluster_per_message (st : Store) : Prop :=
  NoDup (map cm_message_id (cluster_messages st)).

(** Every uuid in use was drawn before [next_id]. *)
Definition ids_below_next (st : Store) : Prop :=
  (forall m, In m (messages st) -> m_id m < next_id st) /\
  (forall cl, In cl (clusters st) -> c_id cl < next_id st) /\
  (forall cm, In cm (cluster_messages st) -> cm_cluster_id cm < next_id st).

(** The lexical stage resolves the clustering of a non-paid message: its best
    trigram match is in a cluster that has another member with an
    embedding. *)
Definition lexically_resolved (trgm : string -> string -> Q) (st : Store)
    (input : IngestMessageInput) : Prop :=
  in_isPaidDm input <> Some true /\
  exists row c, trigram_query trgm st (in_creatorId input) (in_text input) = Some row
    /\ tm_cluster_id row = Some c
    /\ exists m2, In m2 (member_rows st c) /\ m_id m2 <> tm_id row
                  /\ m_embedding m2 <> None.

(** Step 1's decision to skip the embedding call ([skippedEmbedding]). *)
Definition lexical_skip (trgm : string -> string -> Q) (st : Store)
    (input : IngestMessageInput) : bool :=
  match in_isPaidDm input with
  | Some true => false
  | _ =>
      match trigram_query trgm st (in_creatorId input) (in_text input) with
      | Some row => match tm_cluster_id row with
                    | Some _ => tm_cluster_has_embeddings row
                    | None => false
                    end
      | None => false
      end
  end.

(** The order of the suggestions: [a] is ranked no later than [b] by
    (similarity desc, usage_count desc, last_used_at desc). *)
Definition ranked_no_later (a b : SuggestionRow) : Prop :=
  (sr_similarity b < sr_similarity a)%Q \/
  ((sr_similarity a == sr_similarity b)%Q /\
   (t_usage_count (sr_template b) < t_usage_count (sr_template a) \/
    (t_usage_count (sr_template a) = t_usage_count (sr_template b) /\
     (t_last_used_at (sr_template b) <= t_last_used_at (sr_template a))%Z))).

(** Every committed run of [t] from [st] ends in a result and a store
    satisfying [Q]. *)
Definition tx_post {A} (t : Tx A) (st : Store) (Q : A -> Store -> Prop) : Prop :=
  forall log a st', t st = (log, inr (a, st')) -> Q a st'.

(** Cluster [c] holds message [mid] alone, and [mid] is a paid message. *)
Definition paid_isolated (c mid : nat) (st : Store) : Prop :=
  c < next_id st /\ mid < next_id st /\
  (forall m, In m (members st c) -> m = mid) /\
  (forall x, In x (messages st) -> m_id x = mid -> m_is_paid_dm x = true).

(** What a committed ingest adds, starting from [st]: one message with the
    next uuid, and memberships that go to clusters created by the ingest or
    to the cluster of an existing non-paid message. *)
Definition ingest_adds (paid : bool) (st st' : Store) : Prop :=
  next_id st < next_id st' /\
  (exists msg, messages st' = (messages st ++ [msg])%list /\ m_id msg = next_id st
               /\ m_is_paid_dm msg = paid) /\
  (exists added, cluster_messages st' = (cluster_messages st ++ added)%list /\
     forall cm, In cm added ->
       next_id st <= cm_cluster_id cm \/
       exists x, In x (messages st) /\ m_is_paid_dm x = false /\
                 cluster_of st (m_id x) = Some (cm_cluster_id cm)).

(** ** [ClustersService.getClusterMessages] *)

(** Insertion into rows sorted by [created_at] ascending: the row goes
    before the first row that is not earlier than it. *)
Fixpoint insert_by_created_at (m : Message) (l : list Message) : list Message :=
  match l with
  | [] => [m]
  | y :: r =>
      if (m_created_at m <=? m_created_at y)%Z then m :: y :: r
      else y :: insert_by_created_at m r
  end.

(** [ORDER BY m.created_at ASC]; rows with equal [created_at] keep the store
    order. *)
Fixpoint sort_by_created_at (l : list Message) : list Message :=
  match l with
  | [] => []
  | x :: r => insert_by_created_at x (sort_by_created_at r)
  end.

(** [SELECT m.* FROM messages m INNER JOIN cluster_messages cm ON
    cm.message_id = m.id WHERE cm.cluster_id = $1 ORDER BY m.created_at ASC];
    the rows as the store holds them ([mapMessageRow] only renames fields). *)
Definition getClusterMessages (st : Store) (clusterId : nat) : list Message :=
  sort_by_created_at (member_rows st clusterId).

(** ** [ClustersService.deleteCluster] *)

Definition delete_tx (id : nat) : Tx unit :=
  cluster <- tx_read (fun st => find_cluster st id) ;;
  match cluster with
  | None => tx_fail (ErrNotFound "Cluster not found")
  | Some _ =>
      tx_modify (delete_member_messages id) ;;
      tx_modify (delete_cluster id)
  end.

Definition deleteCluster (st : Store) (id : nat) : Store * (DbError + unit) :=
  match run_tx (delete_tx id) st with
  | (_, st', r) => (st', r)
  end.

(** ** Cluster views: [mapClusterRow] over the rows of [listClusters] and
    [getCluster] *)

(** [s || undefined] on a nullable text column: NULL and [''] give
    [undefined]. *)
Definition or_undefined (o : option string) : option string :=
  match o with
  | Some s => if String.eqb s "" then None else Some s
  | None => None
  end.

(** [COUNT(DISTINCT x)] over the non-NULL values [l]. *)
Definition count_distinct (l : list string) : nat :=
  List.length (nodup string_dec l).

(** [COUNT(DISTINCT m.channel_id)] over [clusters c LEFT JOIN cluster_messages
    cm ON cm.cluster_id = c.id LEFT JOIN messages m ON m.id = cm.message_id]. *)
Definition channel_count (st : Store) (c : nat) : nat :=
  count_distinct (map m_channel_id (member_rows st c)).

(** [COUNT(DISTINCT m.visitor_user_id)] over the same join. *)
Definition visitor_count (st : Store) (c : nat) : nat :=
  count_distinct
    (flat_map (fun m => match m_visitor_user_id m with Some v => [v] | None => [] end)
       (member_rows st c)).

(** The GraphQL [Cluster] object, without [visitorAvatarUrls] (a JSON path
    into [raw_payload]). *)
Record ClusterView := mkClusterView {
  v_id : nat;
  v_creatorId : string;
  v_status : ClusterStatus;
  v_responseText : option string;
  v_createdAt : Z;
  v_updatedAt : Z;
  v_channelCount : nat;
  v_previewText : option string;
  v_representativeVisitor : option string;
  v_additionalVisitorCount : Z;
  v_messages : option (list Message)
}.

(** [mapClusterRow] of the row computed for cluster [cl]: [preview_text] and
    [representative_visitor] come from the earliest member ([ORDER BY
    m2.created_at ASC LIMIT 1]), [additional_visitor_count] is
    [COUNT(DISTINCT m.visitor_user_id) - 1] clamped by [Math.max(0, ...)]. *)
Definition cluster_view (st : Store) (cl : Cluster) : ClusterView :=
  let first := earliest_member st (c_id cl) in
  mkClusterView (c_id cl) (c_creator_id cl) (c_status cl)
    (or_undefined (c_response_text cl)) (c_created_at cl) (c_updated_at cl)
    (channel_count st (c_id cl))
    (or_undefined (option_map m_text first))
    (or_undefined (match first with Some m => m_visitor_username m | None => None end))
    (Z.max 0 (Z.of_nat (visitor_count st (c_id cl)) - 1))
    None.

Definition with_messages (v : ClusterView) (ms : list Message) : ClusterView :=
  mkClusterView (v_id v) (v_creatorId v) (v_status v) (v_responseText v)
    (v_createdAt v) (v_updatedAt v) (v_channelCount v) (v_previewText v)
    (v_representativeVisitor v) (v_additionalVisitorCount v) (Some ms).

(** ** [ClustersService.getCluster] *)

Definition getCluster (st : Store) (id : nat) : DbError + ClusterView :=
  match find_cluster st id with
  | None => inl (ErrNotFound "Cluster not found")
  | Some cl => inr (with_messages (cluster_view st cl) (getClusterMessages st id))
  end.

(** ** [ClustersService.listClusters] *)







(** ** [ClustersResolver] *)

(** The [cluster] query: [getCluster], then the suggestions, [undefined]
    when there are none. *)
Definition cluster_query (cosd : Vec -> Vec -> Q) (st : Store) (id : nat) (creatorId : string)
  : DbError + (ClusterView * option (list (string * Q))) :=
  match getCluster st id with
  | inl e => inl e
  | inr cluster =>
      let suggestedResponses := getSuggestedResponses cosd st id creatorId in
      inr (cluster, if 0 <? List.length suggestedResponses then Some suggestedResponses
                    else None)
  end.

(** The [messages] field: the object's messages if set, else
    [getClusterMessages(cluster.id)]. *)
Definition resolve_messages (st : Store) (cluster : ClusterView) : list Message :=
  match v_messages cluster with
  | Some ms => ms
  | None => getClusterMessages st (v_id cluster)
  end.

(** [removeClusterMessage]'s result: [null] when the cluster was deleted,
    otherwise [getCluster(clusterId)] read after the commit. *)
Definition removeClusterMessage_result (st : Store) (clusterId messageId : nat) (now : Z)
  : Store * (DbError + option ClusterView) :=
  match removeClusterMessage st clusterId messageId now with
  | (st', inl e) => (st', inl e)
  | (st', inr None) => (st', inr None)
  | (st', inr (Some c)) =>
      match getCluster st' c with
      | inl e => (st', inl e)
      | inr v => (st', inr (Some v))
      end
  end.

(** ** [EmbeddingsService] *)

Record EmbeddingConfig := mkEmbeddingConfig {
  EMBEDDING_PROVIDER : option string;
  (** [Number(config.get('EMBEDDING_DIM') || ...)], when set *)
  EMBEDDING_DIM : option nat
}.

(** [(config.get('EMBEDDING_PROVIDER') || 'stub') === 'openai']. *)
Definition provider_is_openai (cfg : EmbeddingConfig) : bool :=
  match EMBEDDING_PROVIDER cfg with
  | Some p => String.eqb p "openai"
  | None => false
  end.

Definition dimension_of (cfg : EmbeddingConfig) : nat :=
  match EMBEDDING_DIM cfg with Some d => d | None => 1536 end.

(** [Number(x.toFixed(6))] in millionths: the sign is printed apart, and
    [n / 10^6] is the nearest to [|x|], the larger [n] on a tie.  The value
    [x] is taken exactly. *)
Definition to_fixed6 (x : Q) : Z :=
  if Qltb x 0 then (- Qfloor (- x * (1000000 # 1) + (1 # 2)))%Z
  else Qfloor (x * (1000000 # 1) + (1 # 2)).

(** One component of [embedWithStub]: [hash] holds the digest's bytes. *)
Definition stub_value (hash : list Z) (i : nat) : Z :=
  let byte1 := nth (i mod List.length hash) hash 0%Z in
  let byte2 := nth ((i + 1) mod List.length hash) hash 0%Z in
  let combined := (inject_Z (byte1 * 256 + byte2) / (65535 # 1))%Q in
  to_fixed6 (combined * 2 - 1)%Q.

Definition embedWithStub (sha256 : string -> list Z) (text : string) (dimension : nat) : Vec :=
  map (stub_value (sha256 text)) (seq 0 dimension).

(** [embed] of [modules/embeddings]: [embedWithOpenAI] is the external call
    [openai text dimension], [None] when it throws. *)
Definition embed_service (cfg : EmbeddingConfig) (sha256 : string -> list Z)
    (openai : string -> nat -> option Vec) (text : string) : option Vec :=
  if provider_is_openai cfg then openai text (dimension_of cfg)
  else Some (embedWithStub sha256 text (dimension_of cfg)).

(** ** [CacheService] over a Redis key space *)

(** A Redis entry: key, value and expiry time (seconds), if any. *)
Record RedisEntry := mkRedisEntry {
  re_key : string;
  re_value : string;
  re_expires_at : option Z
}.

(** [isConnected && client]: whether the service talks to Redis. *)
Record Cache := mkCache {
  connected : bool;
  entries : list RedisEntry
}.

Definition live (now : Z) (e : RedisEntry) : bool :=
  match re_expires_at e with
  | Some t => (now <? t)%Z
  | None => true
  end.

(** Redis [GET]. *)
Definition redis_get (es : list RedisEntry) (key : string) (now : Z) : option string :=
  match find (fun e => String.eqb (re_key e) key) es with
  | Some e => if live now e then Some (re_value e) else None
  | None => None
  end.

Definition redis_del (es : list RedisEntry) (key : string) : list RedisEntry :=
  filter (fun e => negb (String.eqb (re_key e) key)) es.

(** Redis [SET] (no expiry) and [SETEX] (expiry [now + ttl]). *)
Definition redis_set (es : list RedisEntry) (key value : string) (expires : option Z)
  : list RedisEntry :=
  mkRedisEntry key value expires :: redis_del es key.

Definition cache_get (c : Cache) (key : string) (now : Z) : option string :=
  if negb (connected c) then None else redis_get (entries c) key now.

(** [if (ttlSeconds) setEx else set]; [SETEX] with a negative time is an
    error, which [set] logs and swallows. *)
Definition cache_set (c : Cache) (key value : string) (ttlSeconds : option Z) (now : Z)
  : Cache :=
  if negb (connected c) then c
  else
    match ttlSeconds with
    | Some t =>
        if (t =? 0)%Z then mkCache true (redis_set (entries c) key value None)
        else if (0 <? t)%Z then mkCache true (redis_set (entries c) key value (Some (now + t)%Z))
        else c
    | None => mkCache true (redis_set (entries c) key value None)
    end.

Definition cache_del (c : Cache) (key : string) : Cache :=
  if negb (connected c) then c else mkCache true (redis_del (entries c) key).

(** ** The cached [EmbeddingsService.embed] (next to [CacheService]) *)

(** [getCacheKey]: [`emb:${sha256hex(text.toLowerCase().trim())}`]. *)
Definition getCacheKey (sha256hex : string -> string) (text : string) : string :=
  "emb:" ++ sha256hex (trim (lower text)).

Definition EMBEDDING_TTL : Z := 30 * 24 * 60 * 60.

Section CachedEmbed.

Variable cfg : EmbeddingConfig.
Variable sha256 : string -> list Z.
Variable sha256hex : string -> string.
(** [embedWithOpenAI]: [None] when it throws. *)
Variable openai : string -> nat -> option Vec.
Variable stringify : Vec -> string.
(** [JSON.parse] of a cached value: [None] when it throws. *)
Variable parse : string -> option Vec.

(** Returns the texts sent to OpenAI, the cache afterwards and the
    embedding ([None]: the call throws). *)
Definition embed_cached (c : Cache) (text : string) (now : Z)
  : list string * Cache * option Vec :=
  if provider_is_openai cfg then
    let cacheKey := getCacheKey sha256hex text in
    let miss :=
      match openai text (dimension_of cfg) with
      | Some embedding =>
          ([text], cache_set c cacheKey (stringify embedding) (Some EMBEDDING_TTL) now,
           Some embedding)
      | None => ([text], c, None)
      end in
    match cache_get c cacheKey now with
    | Some cached => if String.eqb cached "" then miss else ([], c, parse cached)
    | None => miss
    end
  else ([], c, Some (embedWithStub sha256 text (dimension_of cfg))).

End CachedEmbed.

(** ** Further invariants of reachable stores *)


(** No stored message has [replied_at] set. *)
Definition none_replied (st : Store) : Prop :=
  forall m, In m (messages st) -> m_replied_at m = None.

(** Every membership names a stored cluster and a stored message. *)
Definition memberships_resolve (st : Store) : Prop :=
  forall cm, In cm (cluster_messages st) ->
    (exists cl, In cl (clusters st) /\ c_id cl = cm_cluster_id cm) /\
    (exists m, In m (messages st) /\ m_id m = cm_message_id cm).


(** ** Further definitions used in the proofs *)

(** The text of two U+1F44D (THUMBS UP SIGN) separated by a space: five
    UTF-16 code units. *)
Definition THUMBS_UP_TWICE : string := js_string [0x1F44D; 0x20; 0x1F44D]%Z.

(** The row that Step 3 of [ingestMessage] inserts, given its id and embedding. *)
Definition stored_message (input : IngestMessageInput) (now : Z) (id : nat) (emb : option Vec)
  : Message :=
  mkMessage id (in_messageId input) (in_creatorId input) (in_channelId input)
    (or_null (in_channelCid input)) (or_null (in_visitorUserId input))
    (or_null (in_visitorUsername input))
    (in_text input) emb (match in_createdAt input with Some t => t | None => now end)
    None (match in_isPaidDm input with Some true => true | _ => false end)
    (in_rawPayload input).

(** What [ingestMessage] may report as [matchedMessageId] and [similarity]: both
    absent, or a stored candidate message found by the trigram stage or by the
    vector stage, with its similarity. *)
Definition reported_match (embed : string -> option Vec) (trgm : string -> string -> Q)
    (cosd : Vec -> Vec -> Q) (st : Store) (input : IngestMessageInput)
    (matched : option nat) (similarity : option Q) : Prop :=
  match matched, similarity with
  | None, None => True
  | Some mid, Some s =>
      exists x, In x (messages st) /\ m_id x = mid /\ m_creator_id x = in_creatorId input /\
        m_replied_at x = None /\ m_is_paid_dm x = false /\
        ((s = trgm (m_text x) (in_text input) /\ (TRIGRAM_THRESHOLD < s)%Q) \/
         (exists em v, embed (in_text input) = Some v /\ m_embedding x = Some em /\
                       s = (1 - cosd em v)%Q /\ (SIMILARITY_THRESHOLD <= s)%Q))
  | _, _ => False
  end.

(** A sample 32-byte digest. *)
Definition hash_ramp (s : string) : list Z := map (fun k => Z.of_nat (k * 8)) (seq 0 32).

(** A configuration selecting the OpenAI provider. *)
Definition openai_cfg : EmbeddingConfig := mkEmbeddingConfig (Some "openai") (Some 2).


(** * Proofs *)

(** ** Generic facts *)

Lemma steps_snoc {embed trgm cosd} (a b c : Store) :
  steps embed trgm cosd a b -> op_step embed trgm cosd b c -> steps embed trgm cosd a c.
Proof.
  induction 1 as [st | st st1 st2 Hs Hr IH]; intro Hbc.
  - eapply steps_cons; [exact Hbc | apply steps_refl].
  - eapply steps_cons; [exact Hs | apply IH; exact Hbc].
Qed.

Lemma steps_trans {embed trgm cosd} (a b c : Store) :
  steps embed trgm cosd a b -> steps embed trgm cosd b c -> steps embed trgm cosd a c.
Proof.
  induction 1 as [st | st st1 st2 Hs Hr IH]; intro Hbc; [exact Hbc|].
  eapply steps_cons; [exact Hs | apply IH; exact Hbc].
Qed.

(** ** [actionCluster] *)

(** A committed [actionCluster]: the upsert of the template keyed by the
    earliest member's embedding, the deletion of the member messages (and,
    by cascade, of their memberships) and the deletion of the cluster. *)
Lemma actionCluster_committed (st : Store) (id : nat) (txt : string)
    (chs : list string) (now : Z) (st' : Store) (snap : Cluster) :
  actionCluster st id txt chs now = (st', inr snap) ->
  chs <> [] /\ snap = actioned_snapshot id txt now /\
  exists creator e,
    action_cluster_data st id = Some (creator, Some e) /\
    st' = delete_cluster id (delete_member_messages id
            (upsert_template st creator txt e now)).
Proof.
  unfold actionCluster. destruct chs as [|ch chs']; [intro H; discriminate H|].
  unfold run_tx, action_tx, tx_bind, tx_read, tx_modify, tx_fail.
  cbv beta iota zeta.
  destruct (action_cluster_data st id) as [[creator [e|]]|] eqn:E.
  - destruct (find_template st creator txt (Some e)) eqn:F; cbn;
      intro H; inversion H; subst; clear H;
      (split; [discriminate|]); (split; [reflexivity|]);
      exists creator, e; unfold upsert_template; rewrite F; auto.
  - intro H; discriminate H.
  - intro H; discriminate H.
Qed.

Lemma vec_eqb_true (a b : Vec) : vec_eqb a b = true <-> a = b.
Proof.
  unfold vec_eqb. destruct (list_eq_dec Z.eq_dec a b); split; congruence.
Qed.

Lemma find_none_of_filter_nil {A} (f : A -> bool) (l : list A) :
  filter f l = [] -> find f l = None.
Proof.
  induction l as [|x l IH]; cbn; [reflexivity|].
  destruct (f x); [discriminate | exact IH].
Qed.

Lemma find_app_none {A} (f : A -> bool) (l1 l2 : list A) :
  find f l1 = None -> find f (l1 ++ l2) = find f l2.
Proof.
  induction l1 as [|x l1 IH]; cbn; [reflexivity|].
  destruct (f x); [discriminate | exact IH].
Qed.

Lemma template_key_bump_row (creator txt : string) (e : Vec) (id : nat) (now : Z)
    (t : ResponseTemplate) :
  template_key creator txt e (bump_row id now t) = template_key creator txt e t.
Proof. unfold bump_row. destruct (t_id t =? id); reflexivity. Qed.

Lemma filter_key_map_bump (creator txt : string) (e : Vec) (id : nat) (now : Z)
    (l : list ResponseTemplate) :
  filter (template_key creator txt e) (map (bump_row id now) l)
  = map (bump_row id now) (filter (template_key creator txt e) l).
Proof.
  induction l as [|t l IH]; cbn; [reflexivity|].
  rewrite template_key_bump_row. destruct (template_key creator txt e t); cbn;
    rewrite IH; reflexivity.
Qed.

Lemma template_key_true (creator txt : string) (e : Vec) (t : ResponseTemplate) :
  template_key creator txt e t = true <->
  t_creator_id t = creator /\ t_response_text t = txt /\ t_question_embedding t = e.
Proof.
  unfold template_key. rewrite !andb_true_iff, !String.eqb_eq, vec_eqb_true.
  tauto.
Qed.

Lemma upsert_template_tables (st : Store) (creator txt : string) (e : Vec) (now : Z) :
  messages (upsert_template st creator txt e now) = messages st /\
  clusters (upsert_template st creator txt e now) = clusters st /\
  cluster_messages (upsert_template st creator txt e now) = cluster_messages st.
Proof.
  unfold upsert_template. destruct (find_template st creator txt (Some e)); cbn; auto.
Qed.

Lemma find_filter_none {A} (f g : A -> bool) (l : list A) :
  (forall x, f x = true -> g x = false) -> find f (filter g l) = None.
Proof.
  intro H. induction l as [|x l IH]; cbn; [reflexivity|].
  destruct (g x) eqn:G; cbn; [|exact IH].
  destruct (f x) eqn:F; [rewrite (H x F) in G; discriminate | exact IH].
Qed.

Lemma existsb_nat_eqb_In (x : nat) (l : list nat) :
  existsb (Nat.eqb x) l = true <-> In x l.
Proof.
  rewrite existsb_exists. split.
  - intros [y [Hy Hxy]]. apply Nat.eqb_eq in Hxy. subst. exact Hy.
  - intro H. exists x. split; [exact H | apply Nat.eqb_refl].
Qed.

Lemma find_template_key (st : Store) (creator txt : string) (e : Vec) :
  find_template st creator txt (Some e) = find (template_key creator txt e) (response_templates st).
Proof. reflexivity. Qed.

Lemma members_same_tables (st1 st2 : Store) (c : nat) :
  cluster_messages st1 = cluster_messages st2 -> members st1 c = members st2 c.
Proof. unfold members. intro H. rewrite H. reflexivity. Qed.

Lemma members_delete_cluster (st : Store) (c : nat) :
  members (delete_cluster c st) c = [].
Proof.
  unfold members, delete_cluster. cbn.
  induction (cluster_messages st) as [|cm l IH]; cbn; [reflexivity|].
  destruct (cm_cluster_id cm =? c) eqn:E; cbn; [exact IH|].
  rewrite E. exact IH.
Qed.

Lemma find_cluster_delete_cluster (st : Store) (c : nat) :
  find_cluster (delete_cluster c st) c = None.
Proof.
  unfold find_cluster, delete_cluster. cbn. apply find_filter_none.
  intros x H. rewrite H. reflexivity.
Qed.

(** ** C2 *)

(** C2 (amended): a committed [actionCluster id responseText channelIds]
    has a non-empty [channelIds] and commits with the same result for every
    other non-empty [channelIds] (its contents are not used); it upserts the
    template keyed by the cluster's creator, the response text and the
    earliest member's embedding (an existing row gets its usage count
    incremented and [last_used_at] set, else a row with usage count 1 is
    inserted); it leaves no membership and no row for the cluster; and it
    deletes exactly the member message rows of the cluster (the others are
    kept unchanged, none gets [repliedAt]). *)
Theorem action_deletes_member_messages (st : Store) (id : nat) (txt : string)
    (chs : list string) (now : Z) (st' : Store) (snap : Cluster) :
  actionCluster st id txt chs now = (st', inr snap) ->
  chs <> [] /\
  (forall chs', chs' <> [] -> actionCluster st id txt chs' now = (st', inr snap)) /\
  (exists creator e,
     action_cluster_data st id = Some (creator, Some e) /\
     response_templates st' =
       match find (template_key creator txt e) (response_templates st) with
       | Some t => map (bump_row (t_id t) now) (response_templates st)
       | None => (response_templates st
                  ++ [mkResponseTemplate (next_id st) creator None e txt 1 now now])%list
       end) /\
  members st' id = [] /\ find_cluster st' id = None /\
  (forall x, In x (members st id) -> find_message st' x = None) /\
  (forall msg, In msg (messages st') <->
               In msg (messages st) /\ ~ In (m_id msg) (members st id)).
Proof.
  intro H0. pose proof H0 as H.
  apply actionCluster_committed in H as (Hch & _ & creator & e & Hd & Hst).
  destruct (upsert_template_tables st creator txt e now) as (HM & _ & HCM).
  assert (Hmem : members (upsert_template st creator txt e now) id = members st id)
    by (apply members_same_tables; exact HCM).
  split; [exact Hch|]. split.
  { intros chs' Hchs'. rewrite <- H0. unfold actionCluster.
    destruct chs' as [|ch' chs'']; [contradiction|].
    destruct chs as [|ch chs0]; [contradiction|]. reflexivity. }
  subst st'. split.
  { exists creator, e. split; [exact Hd|]. cbn.
    unfold upsert_template. rewrite find_template_key.
    destruct (find (template_key creator txt e) (response_templates st)); reflexivity. }
  split; [apply members_delete_cluster|].
  split; [apply find_cluster_delete_cluster|].
  split.
  - intros x Hx. unfold find_message. cbn. rewrite Hmem, HM.
    apply find_filter_none. intros m Hm. apply Nat.eqb_eq in Hm. subst x.
    apply negb_false_iff, existsb_nat_eqb_In. exact Hx.
  - intro msg. cbn. rewrite Hmem, HM, filter_In, negb_true_iff.
    rewrite <- not_true_iff_false, existsb_nat_eqb_In. tauto.
Qed.

(** C2 counterexample: actioning cluster 1 of scenario [two_2] commits and
    its member message 0 no longer exists afterwards. *)
Lemma action_member_rows_deleted_counterexample :
  In 0 (members two_2 1) /\
  actionCluster two_2 1 "Thanks!" ["channel-1"] 102
    = (two_3, inr (actioned_snapshot 1 "Thanks!" 102)) /\
  find_message two_3 0 = None /\ find_message two_2 0 <> None.
Proof.
  split; [apply existsb_nat_eqb_In; vm_compute; reflexivity|].
  split; [vm_compute; reflexivity|].
  split; [vm_compute; reflexivity|].
  vm_compute. discriminate.
Qed.

Lemma action_deletes_member_messages_witness :
  actionCluster two_2 1 "Thanks!" ["channel-1"] 102
    = (two_3, inr (actioned_snapshot 1 "Thanks!" 102)) /\
  actionCluster two_2 1 "Thanks!" ["channel-7"; "channel-8"] 102
    = (two_3, inr (actioned_snapshot 1 "Thanks!" 102)) /\
  members two_3 1 = [] /\ find_message two_3 0 = None.
Proof.
  assert (H : actionCluster two_2 1 "Thanks!" ["channel-1"] 102
              = (two_3, inr (actioned_snapshot 1 "Thanks!" 102)))
    by (vm_compute; reflexivity).
  destruct (action_deletes_member_messages _ _ _ _ _ _ _ H)
    as (_ & Hc & _ & Hm & _ & Hx & _).
  split; [exact H|]. split; [apply Hc; discriminate|]. split; [exact Hm|].
  apply Hx. apply existsb_nat_eqb_In. vm_compute. reflexivity.
Defined.

(** ** C3 *)

(** C3 (amended): two clusters of the same creator, whose earliest members
    carry the embeddings [e1] and [e2], are actioned in turn with the same
    response text (with only operations that leave the template table alone,
    such as ingestions, in between), and no template for (creator, text,
    [e1]) or (creator, text, [e2]) existed before. If [e1 = e2], exactly one
    such template exists afterwards and its usage count is 2. If [e1 <> e2],
    each action inserts its own row: the table gains exactly two rows, one
    per embedding, each with usage count 1. *)
Theorem same_key_actions_share_template (st1 st2 st2' st3 : Store) (c1 c2 : nat)
    (creator txt : string) (e1 e2 : Vec) (chs1 chs2 : list string) (now1 now2 : Z)
    (s1 s2 : Cluster) :
  filter (template_key creator txt e1) (response_templates st1) = [] ->
  filter (template_key creator txt e2) (response_templates st1) = [] ->
  action_cluster_data st1 c1 = Some (creator, Some e1) ->
  actionCluster st1 c1 txt chs1 now1 = (st2, inr s1) ->
  response_templates st2' = response_templates st2 ->
  action_cluster_data st2' c2 = Some (creator, Some e2) ->
  actionCluster st2' c2 txt chs2 now2 = (st3, inr s2) ->
  (e1 = e2 ->
   exists t, filter (template_key creator txt e1) (response_templates st3) = [t]
             /\ t_usage_count t = 2) /\
  (e1 <> e2 ->
   response_templates st3 =
     (response_templates st1
      ++ [mkResponseTemplate (next_id st1) creator None e1 txt 1 now1 now1;
          mkResponseTemplate (next_id st2') creator None e2 txt 1 now2 now2])%list /\
   exists t1 t2,
     filter (template_key creator txt e1) (response_templates st3) = [t1] /\
     filter (template_key creator txt e2) (response_templates st3) = [t2] /\
     t_usage_count t1 = 1 /\ t_usage_count t2 = 1).
Proof.
  intros Hnone1 Hnone2 Hd1 Ha1 Hmid Hd2 Ha2.
  apply actionCluster_committed in Ha1 as (_ & _ & cr1 & e1' & Hd1' & Hst2).
  rewrite Hd1 in Hd1'. injection Hd1' as <- <-.
  apply actionCluster_committed in Ha2 as (_ & _ & cr2 & e2' & Hd2' & Hst3).
  rewrite Hd2 in Hd2'. injection Hd2' as <- <-.
  set (t1 := mkResponseTemplate (next_id st1) creator None e1 txt 1 now1 now1).
  assert (Hk1 : template_key creator txt e1 t1 = true)
    by (apply template_key_true; cbn; auto).
  assert (T2 : response_templates st2' = (response_templates st1 ++ [t1])%list).
  { rewrite Hmid. subst st2. cbn. unfold upsert_template.
    rewrite find_template_key, (find_none_of_filter_nil _ _ Hnone1). reflexivity. }
  subst st3. cbn. unfold upsert_template. rewrite find_template_key, T2.
  rewrite find_app_none by (apply find_none_of_filter_nil; exact Hnone2).
  split.
  - intros <-. cbn [find]. rewrite Hk1. cbn [bump_template response_templates].
    rewrite filter_key_map_bump, T2, filter_app, Hnone1. cbn [filter app]. rewrite Hk1.
    exists (bump_row (t_id t1) now2 t1). split; [reflexivity|].
    unfold bump_row. rewrite Nat.eqb_refl. reflexivity.
  - intro Hne.
    set (t2 := mkResponseTemplate (next_id st2') creator None e2 txt 1 now2 now2).
    assert (Hk2 : template_key creator txt e2 t2 = true)
      by (apply template_key_true; cbn; auto).
    assert (Hk12 : template_key creator txt e2 t1 = false).
    { apply not_true_iff_false. intro H. apply template_key_true in H as (_ & _ & H).
      exact (Hne H). }
    assert (Hk21 : template_key creator txt e1 t2 = false).
    { apply not_true_iff_false. intro H. apply template_key_true in H as (_ & _ & H).
      exact (Hne (eq_sym H)). }
    cbn [find]. rewrite Hk12. cbn [insert_template response_templates].
    rewrite T2, <- app_assoc. fold t2. split; [reflexivity|].
    exists t1, t2. rewrite !filter_app, Hnone1, Hnone2. cbn [filter app].
    rewrite Hk1, Hk2, Hk12, Hk21. auto.
Qed.

Lemma same_key_actions_share_template_witness :
  (exists t, filter (template_key CREATOR "Thanks!" (codes QUESTION))
               (response_templates dup_4) = [t] /\ t_usage_count t = 2) /\
  (exists t1 t2,
     filter (template_key CREATOR "Thanks!" (codes QUESTION))
       (response_templates two_4) = [t1] /\
     filter (template_key CREATOR "Thanks!" (codes "What is your rate for a shoutout?"))
       (response_templates two_4) = [t2] /\
     t_usage_count t1 = 1 /\ t_usage_count t2 = 1).
Proof.
  split.
  - refine (proj1 (same_key_actions_share_template dup_1 dup_2 dup_3 dup_4 1 4 CREATOR
             "Thanks!" (codes QUESTION) (codes QUESTION) ["channel-1"] ["channel-2"] 101 103
             (actioned_snapshot 1 "Thanks!" 101) (actioned_snapshot 4 "Thanks!" 103)
             _ _ _ _ _ _ _) eq_refl); vm_compute; reflexivity.
  - refine (proj2 (proj2 (same_key_actions_share_template two_2 two_3 two_3 two_4 1 3
             CREATOR "Thanks!" (codes QUESTION) (codes "What is your rate for a shoutout?")
             ["channel-1"] ["channel-2"] 102 103
             (actioned_snapshot 1 "Thanks!" 102) (actioned_snapshot 3 "Thanks!" 103)
             _ _ _ _ _ _ _) _)); try (vm_compute; reflexivity).
    intro H. vm_compute in H. discriminate H.
Defined.

(** C3 counterexample: actioning the two clusters of scenario [two_2]
    (earliest members with different embeddings) with the same text leaves
    two templates for that creator and text, each used once. *)
Lemma same_text_two_templates_counterexample :
  snd (actionCluster two_2 1 "Thanks!" ["channel-1"] 102)
    = inr (actioned_snapshot 1 "Thanks!" 102) /\
  snd (actionCluster two_3 3 "Thanks!" ["channel-2"] 103)
    = inr (actioned_snapshot 3 "Thanks!" 103) /\
  map t_usage_count
    (filter (fun t => String.eqb (t_creator_id t) CREATOR
                      && String.eqb (t_response_text t) "Thanks!")
       (response_templates two_4)) = [1; 1].
Proof. vm_compute. auto. Qed.

(** ** Reachability of the scenarios *)

Lemma reachable_lex_2 : reachable embed_codes trgm_exact cosd_exact lex_2.
Proof.
  unfold reachable.
  apply (steps_snoc _ lex_1); [|apply step_ingest].
  apply (steps_snoc _ empty_store); [apply steps_refl | apply step_ingest].
Qed.

Lemma reachable_lex_3 : reachable embed_codes trgm_exact cosd_exact lex_3.
Proof. apply (steps_snoc _ lex_2); [exact reachable_lex_2 | apply step_ingest]. Qed.

(** ** C10 *)

(** C10: [actionCluster] fails and leaves the store unchanged whenever the
    cluster's earliest member (smallest [createdAt]) has no embedding: the
    template insert violates [question_embedding NOT NULL]. *)
Theorem action_fails_without_earliest_embedding (st : Store) (id : nat) (txt : string)
    (chs : list string) (now : Z) (m : Message) :
  earliest_member st id = Some m -> m_embedding m = None ->
  exists err, actionCluster st id txt chs now = (st, inl err).
Proof.
  intros Hm He. unfold actionCluster. destruct chs as [|ch chs']; [eexists; reflexivity|].
  unfold run_tx, action_tx, tx_bind, tx_read, tx_modify, tx_fail. cbv beta iota zeta.
  unfold action_cluster_data. rewrite Hm, He.
  destruct (find_cluster st id); cbn; eexists; reflexivity.
Qed.

(** Scenario [lex_3] is reachable: channel-3's message joins cluster 1 by a
    lexical match without an embedding and, backdated, is its earliest
    member; actioning cluster 1 then fails. *)
Lemma action_fails_without_earliest_embedding_witness :
  reachable embed_codes trgm_exact cosd_exact lex_3 /\
  exists m, earliest_member lex_3 1 = Some m /\ m_embedding m = None
            /\ m_channel_id m = "channel-3" /\ m_created_at m = 5%Z /\
    exists err, actionCluster lex_3 1 "Thanks!" ["channel-1"; "channel-2"; "channel-3"] 103
                = (lex_3, inl err).
Proof.
  split.
  - exact reachable_lex_3.
  - case_eq (earliest_member lex_3 1).
    + intros m Hm.
      assert (Hfields : m_embedding m = None /\ m_channel_id m = "channel-3"
                        /\ m_created_at m = 5%Z)
        by (vm_compute in Hm; injection Hm as <-; auto).
      destruct Hfields as (He & Hc & Ht).
      exists m. split; [reflexivity|]. split; [exact He|]. split; [exact Hc|].
      split; [exact Ht|].
      exact (action_fails_without_earliest_embedding lex_3 1 "Thanks!"
               ["channel-1"; "channel-2"; "channel-3"] 103 m Hm He).
    + intro Hn. vm_compute in Hn. discriminate Hn.
Defined.

(** ** C5 *)

(** C5: a text whose trimmed form is shorter than [MIN_RESPONSE_LENGTH]
    (in UTF-16 code units, as JS [.length] counts) or matches one of
    [NO_RESPONSE_PATTERNS] is skipped with reason "no_response_needed": no
    embedding call, store unchanged. *)
Theorem ingest_skips_no_response_needed {embed trgm cosd} (st : Store)
    (input : IngestMessageInput) (now : Z) :
  (utf16_length (trimmed_cps (in_text input)) < MIN_RESPONSE_LENGTH
   \/ existsb (fun p => p (trimmed_cps (in_text input))) NO_RESPONSE_PATTERNS = true) ->
  ingestMessage embed trgm cosd st input now = ([], st, inr (Skipped "no_response_needed")).
Proof.
  intro H. unfold ingestMessage.
  replace (needsResponse (in_text input)) with false; [reflexivity|].
  unfold needsResponse. destruct H as [H | H].
  - apply Nat.ltb_lt in H. rewrite H. reflexivity.
  - destruct (utf16_length (trimmed_cps (in_text input)) <? MIN_RESPONSE_LENGTH);
      [reflexivity|]. rewrite H. reflexivity.
Qed.

Lemma ingest_skips_no_response_needed_witness :
  utf16_length (trimmed_cps THUMBS_UP_TWICE) = 5 /\
  existsb (fun p => p (trimmed_cps THUMBS_UP_TWICE)) NO_RESPONSE_PATTERNS = true /\
  ingestMessage embed_down trgm_exact cosd_exact lex_2
    (free_input "ext-9" THUMBS_UP_TWICE "channel-9" 30) 110
  = ([], lex_2, inr (Skipped "no_response_needed")).
Proof.
  assert (H : existsb (fun p => p (trimmed_cps THUMBS_UP_TWICE)) NO_RESPONSE_PATTERNS = true)
    by (vm_compute; reflexivity).
  split; [vm_compute; reflexivity|]. split; [exact H|].
  apply ingest_skips_no_response_needed. right. exact H.
Defined.

(** ** C1 *)

(** C1 (the code does not supersede): after channel-1 asks the same
    question twice, both of its messages are active members of cluster 1. *)
Theorem no_supersede_same_channel :
  members sup_1 1 = [0] /\
  members sup_2 1 = [0; 2] /\
  member_channels sup_2 1 = ["channel-1"; "channel-1"].
Proof. vm_compute. auto. Qed.

(** ** C4 *)

(** C4 (the lexical stage does not add an unclustered match): in scenario
    [res_2] message 0 belongs to no cluster; the near-duplicate from
    channel-2 matches it lexically (similarity 0.9), the vector stage stays
    below 0.9, and the new message ends up alone in a fresh cluster while the
    reported matched message 0 stays outside it. *)
Theorem lexical_match_left_outside :
  cluster_of res_2 0 = None /\
  ingestMessage embed_codes trgm_near cosd_near res_2 res_input 102
    = (["How much do you charge??"],
       ingest_post embed_codes trgm_near cosd_near res_2 res_input 102,
       inr (Ingested 2 3 (Some 0) (Some (9 # 10)%Q))) /\
  members (ingest_post embed_codes trgm_near cosd_near res_2 res_input 102) 3 = [2] /\
  cluster_of (ingest_post embed_codes trgm_near cosd_near res_2 res_input 102) 0 = None.
Proof. vm_compute. auto. Qed.

(** ** Preservation through transactions *)

Section Preservation.

Variable P : Store -> Prop.

Lemma tx_bind_preserves {A B} (m : Tx A) (k : A -> Tx B) :
  tx_preserves P m -> (forall a, tx_preserves P (k a)) -> tx_preserves P (tx_bind m k).
Proof.
  intros Hm Hk st log b st' HP H. unfold tx_bind in H.
  destruct (m st) as [log1 [e|[a st1]]] eqn:E; [discriminate H|].
  destruct (k a st1) as [log2 r] eqn:E2. injection H as <- ->.
  exact (Hk a st1 log2 b st' (Hm st log1 a st1 HP E) E2).
Qed.

Lemma tx_ret_preserves {A} (a : A) : tx_preserves P (tx_ret a).
Proof. intros st log b st' HP H. injection H as _ _ <-. exact HP. Qed.

Lemma tx_read_preserves {A} (f : Store -> A) : tx_preserves P (tx_read f).
Proof. intros st log b st' HP H. injection H as _ _ <-. exact HP. Qed.

Lemma tx_fail_preserves {A} (e : DbError) : tx_preserves P (@tx_fail A e).
Proof. intros st log b st' HP H. discriminate H. Qed.

Lemma tx_modify_preserves (f : Store -> Store) :
  (forall st, P st -> P (f st)) -> tx_preserves P (tx_modify f).
Proof. intros Hf st log b st' HP H. injection H as _ _ <-. apply Hf. exact HP. Qed.

Lemma tx_embed_preserves embed (text : string) : tx_preserves P (tx_embed embed text).
Proof.
  intros st log b st' HP H. unfold tx_embed in H.
  destruct (embed text); [injection H as _ _ <-; exact HP | discriminate H].
Qed.

Lemma tx_insert_message_preserves (mk : nat -> Message) :
  (forall st, P st -> P (snd (insert_message st mk))) ->
  tx_preserves P (tx_insert_message mk).
Proof. intros Hf st log b st' HP H. injection H as _ _ <-. apply (Hf st HP). Qed.

Lemma tx_insert_cluster_preserves (creator : string) (now : Z) :
  (forall st, P st -> P (snd (insert_cluster st creator now))) ->
  tx_preserves P (tx_insert_cluster creator now).
Proof. intros Hf st log b st' HP H. injection H as _ _ <-. apply (Hf st HP). Qed.

Lemma tx_insert_cluster_message_preserves (c m : nat) (now : Z) :
  (forall st st', P st -> insert_cluster_message st c m now = Some st' -> P st') ->
  tx_preserves P (tx_insert_cluster_message c m now).
Proof.
  intros Hf st log b st' HP H. unfold tx_insert_cluster_message in H.
  destruct (insert_cluster_message st c m now) as [st1|] eqn:E; [|discriminate H].
  injection H as _ _ <-. exact (Hf st st1 HP E).
Qed.

Lemma tx_insert_template_preserves (creator : string) (emb : option Vec) (text : string)
    (now : Z) :
  (forall st e, P st -> P (insert_template creator e text now st)) ->
  tx_preserves P (tx_insert_template creator emb text now).
Proof.
  intros Hf st log b st' HP H. unfold tx_insert_template in H.
  destruct emb as [e|]; [injection H as _ _ <-; apply Hf; exact HP | discriminate H].
Qed.

Hypothesis P_insert_message :
  forall st mk, (forall id, m_id (mk id) = id) -> P st -> P (snd (insert_message st mk)).
Hypothesis P_insert_cluster : forall st creator now, P st -> P (snd (insert_cluster st creator now)).
Hypothesis P_insert_cluster_message :
  forall st st' c m now, P st -> insert_cluster_message st c m now = Some st' -> P st'.
Hypothesis P_bump_template : forall st id now, P st -> P (bump_template id now st).
Hypothesis P_insert_template :
  forall st creator e text now, P st -> P (insert_template creator e text now st).
Hypothesis P_delete_member_messages : forall st c, P st -> P (delete_member_messages c st).
Hypothesis P_delete_cluster : forall st c, P st -> P (delete_cluster c st).
Hypothesis P_delete_membership : forall st c m, P st -> P (delete_membership c m st).
Hypothesis P_touch_cluster : forall st c now, P st -> P (touch_cluster c now st).

Ltac solve_preserves :=
  repeat match goal with
  | |- tx_preserves _ (tx_bind _ _) => apply tx_bind_preserves; [|intro]
  | |- tx_preserves _ (tx_ret _) => apply tx_ret_preserves
  | |- tx_preserves _ (tx_read _) => apply tx_read_preserves
  | |- tx_preserves _ (tx_fail _) => apply tx_fail_preserves
  | |- tx_preserves _ (tx_embed _ _) => apply tx_embed_preserves
  | |- tx_preserves _ (tx_modify _) => apply tx_modify_preserves; intros ? ?
  | |- tx_preserves _ (tx_insert_message _) =>
      apply tx_insert_message_preserves; intros; apply P_insert_message;
      [intro; reflexivity | assumption]
  | |- tx_preserves _ (tx_insert_cluster _ _) =>
      apply tx_insert_cluster_preserves; intros; apply P_insert_cluster; assumption
  | |- tx_preserves _ (tx_insert_cluster_message _ _ _) =>
      apply tx_insert_cluster_message_preserves; intros; eapply P_insert_cluster_message; eassumption
  | |- tx_preserves _ (tx_insert_template _ _ _ _) =>
      apply tx_insert_template_preserves; intros; apply P_insert_template; assumption
  | |- tx_preserves _ (match ?x with _ => _ end) => destruct x
  | |- P (bump_template _ _ _) => apply P_bump_template; assumption
  | |- P (delete_member_messages _ _) => apply P_delete_member_messages; assumption
  | |- P (delete_cluster _ _) => apply P_delete_cluster; assumption
  | |- P (delete_membership _ _ _) => apply P_delete_membership; assumption
  | |- P (touch_cluster _ _ _) => apply P_touch_cluster; assumption
  end.

Lemma ingest_tx_preserves embed trgm cosd (input : IngestMessageInput) (now : Z) :
  tx_preserves P (ingest_tx embed trgm cosd input now).
Proof. unfold ingest_tx. solve_preserves. Qed.

Lemma action_tx_preserves (id : nat) (txt : string) (now : Z) :
  tx_preserves P (action_tx id txt now).
Proof. unfold action_tx. solve_preserves. Qed.

Lemma remove_tx_preserves (c m : nat) (now : Z) :
  tx_preserves P (remove_tx c m now).
Proof. unfold remove_tx. solve_preserves. Qed.

Lemma run_tx_preserves {A} (t : Tx A) (st : Store) :
  tx_preserves P t -> P st -> P (snd (fst (run_tx t st))).
Proof.
  intros Ht HP. unfold run_tx.
  destruct (t st) as [log [e|[a st']]] eqn:E; cbn; [exact HP|].
  exact (Ht st log a st' HP E).
Qed.

Lemma op_step_preserves embed trgm cosd (st st' : Store) :
  P st -> op_step embed trgm cosd st st' -> P st'.
Proof.
  intros HP Hs. destruct Hs as [st input now | st id txt chs now | st c m now].
  - unfold ingest_post, ingestMessage.
    destruct (negb (needsResponse (in_text input))); [exact HP|].
    pose proof (run_tx_preserves (ingest_tx embed trgm cosd input now) st
                  (ingest_tx_preserves embed trgm cosd input now) HP) as H.
    destruct (run_tx (ingest_tx embed trgm cosd input now) st) as [[log s1] r].
    exact H.
  - unfold actionCluster. destruct chs; [exact HP|].
    pose proof (run_tx_preserves (action_tx id txt now) st (action_tx_preserves id txt now) HP)
      as H.
    destruct (run_tx (action_tx id txt now) st) as [[log s1] [e|[]]]; exact H.
  - unfold removeClusterMessage.
    pose proof (run_tx_preserves (remove_tx c m now) st (remove_tx_preserves c m now) HP) as H.
    destruct (run_tx (remove_tx c m now) st) as [[log s1] r]. exact H.
Qed.

End Preservation.

Lemma steps_preserve (P : Store -> Prop) embed trgm cosd :
  (forall a b, P a -> op_step embed trgm cosd a b -> P b) ->
  forall st st', steps embed trgm cosd st st' -> P st -> P st'.
Proof.
  intros Hstep st st'.
  induction 1 as [st | st st1 st2 Hs Hr IH]; intro HP; [exact HP|].
  apply IH. exact (Hstep st st1 HP Hs).
Qed.

(** ** One cluster per message *)

Lemma NoDup_map_filter {A B} (f : A -> B) (g : A -> bool) (l : list A) :
  NoDup (map f l) -> NoDup (map f (filter g l)).
Proof.
  induction l as [|x r IH]; cbn; intro H; [constructor|].
  inversion H as [|? ? Hn Hr]; subst.
  destruct (g x); cbn; [|exact (IH Hr)].
  constructor; [|exact (IH Hr)].
  intro Hin. apply Hn. apply in_map_iff in Hin as (y & Hy & Hyin).
  apply filter_In in Hyin as [Hyin _]. rewrite <- Hy. apply in_map. exact Hyin.
Qed.

Lemma NoDup_map_snoc {A B} (f : A -> B) (l : list A) (x : A) :
  NoDup (map f l) -> ~ In (f x) (map f l) -> NoDup (map f (l ++ [x])).
Proof.
  intros H Hx. rewrite map_app. cbn.
  apply NoDup_app; [exact H | constructor; [intros []|constructor] |].
  intros y Hy [<-|[]]. exact (Hx Hy).
Qed.

Lemma NoDup_map_same {A B} (f : A -> B) (l : list A) (x y : A) :
  NoDup (map f l) -> In x l -> In y l -> f x = f y -> x = y.
Proof.
  induction l as [|z r IH]; cbn; [intros _ []|].
  intros H Hx Hy Hf. inversion H as [|? ? Hn Hr]; subst.
  destruct Hx as [<-|Hx], Hy as [<-|Hy]; auto.
  - exfalso. apply Hn. rewrite Hf. apply in_map. exact Hy.
  - exfalso. apply Hn. rewrite <- Hf. apply in_map. exact Hx.
Qed.

Lemma one_cluster_per_message_empty : one_cluster_per_message empty_store.
Proof. constructor. Qed.

Lemma one_cluster_per_message_step embed trgm cosd (st st' : Store) :
  one_cluster_per_message st -> op_step embed trgm cosd st st' ->
  one_cluster_per_message st'.
Proof.
  unfold one_cluster_per_message. intros HP Hs. revert st st' HP Hs.
  apply op_step_preserves; clear; intros.
  - assumption.
  - assumption.
  - unfold insert_cluster_message in H0.
    destruct (is_some (find_cluster st c) && is_some (find_message st m)
              && negb (existsb (fun cm => cm_message_id cm =? m) (cluster_messages st)))
      eqn:E; [|discriminate H0].
    injection H0 as <-. cbn. apply NoDup_map_snoc; [exact H|]. cbn.
    apply andb_true_iff in E as [_ E]. apply negb_true_iff in E.
    intro Hin. apply in_map_iff in Hin as (cm & Hcm & Hin).
    assert (existsb (fun cm => cm_message_id cm =? m) (cluster_messages st) = true) as Ht.
    { apply existsb_exists. exists cm. split; [exact Hin | apply Nat.eqb_eq; exact Hcm]. }
    congruence.
  - exact H.
  - exact H.
  - apply NoDup_map_filter. exact H.
  - apply NoDup_map_filter. exact H.
  - apply NoDup_map_filter. exact H.
  - exact H.
Qed.

Lemma reachable_one_cluster_per_message embed trgm cosd (st : Store) :
  reachable embed trgm cosd st -> one_cluster_per_message st.
Proof.
  intro Hr. refine (steps_preserve _ embed trgm cosd _ _ _ Hr one_cluster_per_message_empty).
  intros a b Ha Hs. exact (one_cluster_per_message_step embed trgm cosd a b Ha Hs).
Qed.

(** ** C8 *)

(** C8: in every store reachable from the empty one by ingests, actions and
    member removals, a message has at most one cluster membership: two
    membership rows of the same message are the same row (so they name the
    same cluster). *)
Theorem message_in_at_most_one_cluster {embed trgm cosd} (st : Store)
    (Hr : reachable embed trgm cosd st) (cm1 cm2 : ClusterMessage)
    (H1 : In cm1 (cluster_messages st)) (H2 : In cm2 (cluster_messages st))
    (Hm : cm_message_id cm1 = cm_message_id cm2) :
  cm1 = cm2.
Proof.
  exact (NoDup_map_same cm_message_id (cluster_messages st) cm1 cm2
           (reachable_one_cluster_per_message embed trgm cosd st Hr) H1 H2 Hm).
Qed.

Lemma message_in_at_most_one_cluster_witness :
  reachable embed_codes trgm_exact cosd_exact lex_3 /\
  In (mkClusterMessage 1 3 102) (cluster_messages lex_3) /\
  mkClusterMessage 1 3 102 = mkClusterMessage 1 3 102.
Proof.
  assert (Hin : In (mkClusterMessage 1 3 102) (cluster_messages lex_3))
    by (vm_compute; intuition).
  split; [exact reachable_lex_3|]. split; [exact Hin|].
  exact (message_in_at_most_one_cluster lex_3 reachable_lex_3 _ _ Hin Hin eq_refl).
Defined.

(** ** The embedding call of [ingestMessage] *)

Lemma tx_bind_quiet_log {A B} (m : Tx A) (k : A -> Tx B) (st : Store) :
  (forall a, tx_quiet (k a)) -> fst (tx_bind m k st) = fst (m st).
Proof.
  intro Hk. unfold tx_bind.
  destruct (m st) as [log1 [e|[a st1]]]; [reflexivity|].
  specialize (Hk a st1). destruct (k a st1) as [log2 r]. cbn in *. subst.
  apply app_nil_r.
Qed.

Lemma tx_bind_step {A B} (m : Tx A) (k : A -> Tx B) (st : Store) (a : A) (st1 : Store) :
  m st = ([], inr (a, st1)) -> tx_bind m k st = k a st1.
Proof. intro H. unfold tx_bind. rewrite H. destruct (k a st1). reflexivity. Qed.

Lemma tx_bind_quiet {A B} (m : Tx A) (k : A -> Tx B) :
  tx_quiet m -> (forall a, tx_quiet (k a)) -> tx_quiet (tx_bind m k).
Proof.
  intros Hm Hk st. rewrite tx_bind_quiet_log by exact Hk. apply Hm.
Qed.

Ltac solve_quiet :=
  repeat match goal with
  | |- tx_quiet (tx_bind _ _) => apply tx_bind_quiet; [|intro]
  | |- tx_quiet (match ?x with _ => _ end) => destruct x
  | |- tx_quiet (tx_insert_cluster_message _ _ _) =>
      let st := fresh "st" in
      intro st; unfold tx_insert_cluster_message;
      destruct (insert_cluster_message st _ _ _); reflexivity
  | |- tx_quiet _ => intro; reflexivity
  end.

Lemma ingest_tx_log embed trgm cosd input now st :
  fst (ingest_tx embed trgm cosd input now st) =
  if lexical_skip trgm st input
  then [] else [in_text input].
Proof.
  unfold ingest_tx, lexical_skip in *. cbv beta zeta.
  destruct (in_isPaidDm input) as [[|]|].
  all: erewrite tx_bind_step by reflexivity.
  all: destruct (trigram_query trgm st (in_creatorId input) (in_text input)) as [row|];
     [destruct (tm_cluster_id row); [destruct (tm_cluster_has_embeddings row)|]|].
  all: cbv beta iota; rewrite tx_bind_quiet_log by (intro; solve_quiet); try reflexivity.
  all: rewrite tx_bind_quiet_log by (intro; solve_quiet); reflexivity.
Qed.


Lemma ingest_tx_embed_failure embed trgm cosd input now st :
  embed (in_text input) = None ->
  lexical_skip trgm st input = false ->
  ingest_tx embed trgm cosd input now st = ([in_text input], inl ErrEmbedding).
Proof.
  intros He Hf. unfold ingest_tx, lexical_skip in *. cbv beta zeta.
  destruct (in_isPaidDm input) as [[|]|].
  all: erewrite tx_bind_step by reflexivity.
  all: destruct (trigram_query trgm st (in_creatorId input) (in_text input)) as [row|];
     [destruct (tm_cluster_id row); [destruct (tm_cluster_has_embeddings row)|]|].
  all: try discriminate Hf.
  all: cbv beta iota; unfold tx_bind at 1 2, tx_embed; rewrite He; reflexivity.
Qed.

Lemma ingest_tx_skip_independent embed embed' trgm cosd input now st :
  lexical_skip trgm st input = true ->
  ingest_tx embed trgm cosd input now st = ingest_tx embed' trgm cosd input now st.
Proof.
  intros Hf. unfold ingest_tx, lexical_skip in *. cbv beta zeta.
  destruct (in_isPaidDm input) as [[|]|].
  all: erewrite tx_bind_step by reflexivity.
  all: erewrite tx_bind_step by reflexivity.
  all: destruct (trigram_query trgm st (in_creatorId input) (in_text input)) as [row|];
     [destruct (tm_cluster_id row); [destruct (tm_cluster_has_embeddings row)|]|].
  all: try discriminate Hf.
  all: reflexivity.
Qed.

Lemma first_best_In {A} (better : A -> A -> bool) (l : list A) (x : A) :
  first_best better l = Some x -> In x l.
Proof.
  induction l as [|y r IH]; cbn; [discriminate|].
  destruct (first_best better r) as [z|].
  - destruct (better z y); intro H; injection H as <-; [right; apply IH; reflexivity|left; reflexivity].
  - intro H. injection H as <-. left. reflexivity.
Qed.

Lemma trigram_query_has_embeddings trgm st creator text row :
  trigram_query trgm st creator text = Some row ->
  tm_cluster_has_embeddings row = cluster_has_embeddings st (tm_cluster_id row) (tm_id row).
Proof.
  intro H. apply first_best_In in H. unfold trigram_candidates in H.
  apply in_map_iff in H as (m & <- & _). reflexivity.
Qed.

Lemma cluster_has_embeddings_spec st c mid :
  cluster_has_embeddings st (Some c) mid = true <->
  exists m2, In m2 (member_rows st c) /\ m_id m2 <> mid /\ m_embedding m2 <> None.
Proof.
  unfold cluster_has_embeddings. rewrite existsb_exists. split.
  - intros (m2 & Hin & Hb). apply andb_true_iff in Hb as [Hb1 Hb2].
    exists m2. split; [exact Hin|]. split.
    + intro Heq. apply Nat.eqb_eq in Heq. rewrite Heq in Hb1. discriminate Hb1.
    + destruct (m_embedding m2); [discriminate | discriminate Hb2].
  - intros (m2 & Hin & Hne & He). exists m2. split; [exact Hin|].
    apply andb_true_iff. split.
    + apply negb_true_iff. apply Nat.eqb_neq. exact Hne.
    + destruct (m_embedding m2); [reflexivity | contradiction].
Qed.

Lemma lexical_skip_spec trgm st input :
  lexical_skip trgm st input = true <-> lexically_resolved trgm st input.
Proof.
  unfold lexical_skip, lexically_resolved.
  destruct (trigram_query trgm st (in_creatorId input) (in_text input)) as [row|] eqn:T.
  - pose proof (trigram_query_has_embeddings _ _ _ _ _ T) as Hh.
    destruct (tm_cluster_id row) as [c|] eqn:C.
    + destruct (in_isPaidDm input) as [[|]|].
      * split; [discriminate|]. intros [Hp _]. congruence.
      * rewrite Hh, cluster_has_embeddings_spec. split.
        -- intro Hx. split; [discriminate|]. exists row, c. auto.
        -- intros [_ (row' & c' & T' & C' & Hx)]. injection T' as <-.
           rewrite C in C'. injection C' as E. subst c'. exact Hx.
      * rewrite Hh, cluster_has_embeddings_spec. split.
        -- intro Hx. split; [discriminate|]. exists row, c. auto.
        -- intros [_ (row' & c' & T' & C' & Hx)]. injection T' as <-.
           rewrite C in C'. injection C' as E. subst c'. exact Hx.
    + destruct (in_isPaidDm input) as [[|]|]; split; try discriminate;
        intros [_ (row' & c' & T' & C' & _)]; injection T' as <-; congruence.
  - destruct (in_isPaidDm input) as [[|]|]; split; try discriminate;
      intros [_ (row' & c' & T' & _)]; discriminate T'.
Qed.

Lemma run_tx_log {A} (t : Tx A) (st : Store) : fst (fst (run_tx t st)) = fst (t st).
Proof. unfold run_tx. destruct (t st) as [log [e|[a st']]]; reflexivity. Qed.

(** ** C7 *)

(** C7: for a message that passes the response filter, (1) when the
    embedding provider fails and the lexical stage did not resolve the
    clustering, the ingest fails with the store unchanged; (2) the provider
    is called (the log of texts sent to it is [[text]]) exactly when the
    lexical stage did not resolve the clustering into a cluster with another
    embedded member, and not at all otherwise; (3) in the latter case the
    outcome does not depend on the provider at all. *)
Theorem ingest_embedding_failure {embed trgm cosd} (st : Store)
    (input : IngestMessageInput) (now : Z)
    (Hn : needsResponse (in_text input) = true) :
  (embed (in_text input) = None -> ~ lexically_resolved trgm st input ->
   ingestMessage embed trgm cosd st input now = ([in_text input], st, inl ErrEmbedding)) /\
  (fst (fst (ingestMessage embed trgm cosd st input now)) = []
   <-> lexically_resolved trgm st input) /\
  (fst (fst (ingestMessage embed trgm cosd st input now)) = [in_text input]
   <-> ~ lexically_resolved trgm st input) /\
  (lexically_resolved trgm st input ->
   forall embed', ingestMessage embed' trgm cosd st input now
                  = ingestMessage embed trgm cosd st input now).
Proof.
  unfold ingestMessage. rewrite Hn. cbn [negb].
  rewrite run_tx_log, ingest_tx_log.
  pose proof (lexical_skip_spec trgm st input) as Hs.
  split; [|split; [|split]].
  - intros He Hr. unfold run_tx.
    rewrite (ingest_tx_embed_failure embed trgm cosd input now st He);
      [reflexivity|].
    destruct (lexical_skip trgm st input); [exfalso; apply Hr, Hs|]; reflexivity.
  - destruct (lexical_skip trgm st input); split; intro H.
    + apply Hs. reflexivity.
    + reflexivity.
    + discriminate H.
    + apply Hs in H. discriminate H.
  - destruct (lexical_skip trgm st input); split; intro H.
    + discriminate H.
    + exfalso. apply H, Hs. reflexivity.
    + intro Hr. apply Hs in Hr. discriminate Hr.
    + reflexivity.
  - intros Hr embed'. apply Hs in Hr. unfold run_tx.
    rewrite (ingest_tx_skip_independent embed' embed trgm cosd input now st Hr).
    reflexivity.
Qed.

Lemma ingest_embedding_failure_witness :
  ingestMessage embed_down trgm_exact cosd_exact empty_store
    (free_input "ext-1" QUESTION "channel-1" 10) 100
  = ([QUESTION], empty_store, inl ErrEmbedding) /\
  fst (fst (ingestMessage embed_down trgm_exact cosd_exact lex_2
              (free_input "ext-3" QUESTION "channel-3" 5) 102)) = [].
Proof.
  split.
  - destruct (ingest_embedding_failure (embed := embed_down) (trgm := trgm_exact)
                (cosd := cosd_exact) empty_store (free_input "ext-1" QUESTION "channel-1" 10)
                100 ltac:(vm_compute; reflexivity)) as [Hf _].
    apply Hf; [reflexivity|].
    intro Hr. apply lexical_skip_spec in Hr. vm_compute in Hr. discriminate Hr.
  - destruct (ingest_embedding_failure (embed := embed_down) (trgm := trgm_exact)
                (cosd := cosd_exact) lex_2 (free_input "ext-3" QUESTION "channel-3" 5)
                102 ltac:(vm_compute; reflexivity)) as [_ [Hl _]].
    apply Hl. apply lexical_skip_spec. vm_compute. reflexivity.
Defined.

(** ** Ranking of the suggestions *)

Lemma Qltb_true (x y : Q) : Qltb x y = true <-> (x < y)%Q.
Proof.
  unfold Qltb. rewrite negb_true_iff. split; intro H.
  - apply Qnot_le_lt. intro Hle. apply Qle_bool_iff in Hle. congruence.
  - destruct (Qle_bool y x) eqn:E; [|reflexivity].
    apply Qle_bool_iff in E. exfalso. apply (Qlt_not_le x y H E).
Qed.

Lemma suggestion_before_ranked (a b : SuggestionRow) :
  suggestion_before a b = true -> ranked_no_later a b.
Proof.
  unfold suggestion_before, ranked_no_later. intro H.
  apply orb_true_iff in H as [H|H].
  - left. apply Qltb_true. exact H.
  - apply andb_true_iff in H as [Hq H]. right. split; [apply Qeq_bool_iff; exact Hq|].
    apply orb_true_iff in H as [H|H].
    + left. apply Nat.ltb_lt. exact H.
    + apply andb_true_iff in H as [Hu Hl]. right. split; [apply Nat.eqb_eq; exact Hu|].
      apply Z.ltb_lt in Hl. lia.
Qed.

Lemma suggestion_not_before_ranked (a b : SuggestionRow) :
  suggestion_before a b = false -> ranked_no_later b a.
Proof.
  unfold suggestion_before, ranked_no_later. intro H.
  apply orb_false_iff in H as [H1 H2].
  assert (Hle : (sr_similarity a <= sr_similarity b)%Q).
  { apply Qnot_lt_le. intro Hlt. apply Qltb_true in Hlt. congruence. }
  destruct (Qle_lt_or_eq _ _ Hle) as [Hlt|Heq]; [left; exact Hlt|].
  right. split; [apply Qeq_sym; exact Heq|].
  apply Qeq_bool_iff in Heq. rewrite Heq in H2. cbn in H2.
  apply orb_false_iff in H2 as [Hu Hl].
  apply Nat.ltb_ge in Hu.
  destruct (Nat.eq_dec (t_usage_count (sr_template a)) (t_usage_count (sr_template b)))
    as [E|E].
  - right. split; [symmetry; exact E|].
    apply Nat.eqb_eq in E. rewrite E in Hl. cbn in Hl. apply Z.ltb_ge in Hl. exact Hl.
  - left. lia.
Qed.

Lemma insert_row_head (x : SuggestionRow) (l : list SuggestionRow) :
  exists y r, insert_row x l = y :: r /\ (y = x \/ hd_error l = Some y).
Proof.
  destruct l as [|y r]; cbn.
  - exists x, []. auto.
  - destruct (suggestion_before x y).
    + exists x, (y :: r). auto.
    + exists y, (insert_row x r). auto.
Qed.

Lemma insert_row_sorted (x : SuggestionRow) (l : list SuggestionRow) :
  Sorted ranked_no_later l -> Sorted ranked_no_later (insert_row x l).
Proof.
  induction l as [|y r IH]; cbn; intro H.
  - repeat constructor.
  - destruct (suggestion_before x y) eqn:B.
    + constructor; [exact H|]. constructor. apply suggestion_before_ranked. exact B.
    + apply Sorted_inv in H as [Hr Hh]. constructor; [apply IH; exact Hr|].
      destruct (insert_row_head x r) as (z & r' & E & [<-|Hz]); rewrite E.
      * constructor. apply suggestion_not_before_ranked. exact B.
      * destruct r as [|w r]; [discriminate Hz|]. cbn in Hz. injection Hz as ->.
        inversion Hh; subst. constructor. assumption.
Qed.

Lemma sort_rows_sorted (l : list SuggestionRow) : Sorted ranked_no_later (sort_rows l).
Proof. induction l as [|x r IH]; cbn; [constructor|]. apply insert_row_sorted. exact IH. Qed.

Lemma insert_row_In (x y : SuggestionRow) (l : list SuggestionRow) :
  In y (insert_row x l) -> y = x \/ In y l.
Proof.
  induction l as [|z r IH]; cbn; [intros [<-|[]]; auto|].
  destruct (suggestion_before x z); cbn.
  - intros [<-|H]; auto.
  - intros [<-|H]; [auto|]. destruct (IH H); auto.
Qed.

Lemma sort_rows_In (y : SuggestionRow) (l : list SuggestionRow) :
  In y (sort_rows l) -> In y l.
Proof.
  induction l as [|x r IH]; cbn; [intros []|].
  intro H. destruct (insert_row_In x y _ H) as [<-|H']; auto.
Qed.

Lemma firstn_sorted {A} (R : A -> A -> Prop) (n : nat) (l : list A) :
  Sorted R l -> Sorted R (firstn n l).
Proof.
  revert l. induction n as [|n IH]; intros l H; cbn; [constructor|].
  destruct l as [|x r]; [constructor|].
  apply Sorted_inv in H as [Hr Hh]. constructor; [apply IH; exact Hr|].
  destruct n as [|n]; cbn; [constructor|].
  destruct r as [|y r]; [constructor|]. inversion Hh; subst. constructor. assumption.
Qed.

Lemma firstn_In' {A} (n : nat) (l : list A) (x : A) : In x (firstn n l) -> In x l.
Proof.
  intro H. rewrite <- (firstn_skipn n l). apply in_or_app. left. exact H.
Qed.

(** ** C9 *)

(** C9: [getSuggestedResponses clusterId creatorId] returns at most three
    entries, one per row of [suggestion_rows] (response text and similarity
    rounded to three decimals); each row is a template of that creator whose
    similarity to the embedding of the cluster's earliest member is
    [1 - cosine distance] and strictly above 0.8; the rows are ordered by
    similarity desc, then usage count desc, then last use desc; and the
    result is empty when the earliest member has no embedding. *)
Theorem suggested_responses_ranked {cosd} (st : Store) (clusterId : nat)
    (creatorId : string) :
  List.length (getSuggestedResponses cosd st clusterId creatorId) <= 3 /\
  getSuggestedResponses cosd st clusterId creatorId
  = map (fun r => (t_response_text (sr_template r), round3 (sr_similarity r)))
        (suggestion_rows cosd st clusterId creatorId) /\
  (forall r, In r (suggestion_rows cosd st clusterId creatorId) ->
     In (sr_template r) (response_templates st) /\
     t_creator_id (sr_template r) = creatorId /\
     exists m e, earliest_member st clusterId = Some m /\ m_embedding m = Some e /\
       sr_similarity r = (1 - cosd (t_question_embedding (sr_template r)) e)%Q /\
       (SUGGESTION_THRESHOLD < sr_similarity r)%Q) /\
  Sorted ranked_no_later (suggestion_rows cosd st clusterId creatorId) /\
  (forall m, earliest_member st clusterId = Some m -> m_embedding m = None ->
     getSuggestedResponses cosd st clusterId creatorId = []).
Proof.
  split; [|split; [reflexivity|split; [|split]]].
  - unfold getSuggestedResponses. rewrite length_map.
    unfold suggestion_rows.
    destruct (earliest_member st clusterId) as [m|]; [|cbn; lia].
    destruct (m_embedding m) as [e|]; [|cbn; lia].
    unfold suggestion_query. rewrite length_firstn. lia.
  - intros r Hr. unfold suggestion_rows in Hr.
    destruct (earliest_member st clusterId) as [m|] eqn:Em; [|destruct Hr].
    destruct (m_embedding m) as [e|] eqn:Ee; [|destruct Hr].
    unfold suggestion_query in Hr.
    apply firstn_In', sort_rows_In, filter_In in Hr as [Hr Ht].
    apply in_map_iff in Hr as (t & <- & Hr). apply filter_In in Hr as [Hr Hc].
    cbn in *. split; [exact Hr|]. split; [apply String.eqb_eq; exact Hc|].
    exists m, e. split; [reflexivity|]. split; [exact Ee|]. split; [reflexivity|].
    apply Qltb_true. exact Ht.
  - unfold suggestion_rows.
    destruct (earliest_member st clusterId) as [m|]; [|constructor].
    destruct (m_embedding m) as [e|]; [|constructor].
    apply firstn_sorted, sort_rows_sorted.
  - intros m Em Ee. unfold getSuggestedResponses, suggestion_rows.
    rewrite Em, Ee. reflexivity.
Qed.

(** ** Postconditions of transactions *)

Lemma post_bind {A B} (m : Tx A) (k : A -> Tx B) st Q :
  tx_post m st (fun a st1 => tx_post (k a) st1 Q) -> tx_post (tx_bind m k) st Q.
Proof.
  intros Hm log b st' H. unfold tx_bind in H.
  destruct (m st) as [log1 [e|[a st1]]] eqn:E; [discriminate H|].
  destruct (k a st1) as [log2 r] eqn:E2. injection H as <- ->.
  exact (Hm log1 a st1 E log2 b st' E2).
Qed.

Lemma post_ret {A} (a : A) st Q : Q a st -> tx_post (tx_ret a) st Q.
Proof. intros HQ log b st' H. injection H as _ <- <-. exact HQ. Qed.

Lemma post_read {A} (f : Store -> A) st Q : Q (f st) st -> tx_post (tx_read f) st Q.
Proof. intros HQ log b st' H. injection H as _ <- <-. exact HQ. Qed.

Lemma post_fail {A} (e : DbError) st (Q : A -> Store -> Prop) : tx_post (tx_fail e) st Q.
Proof. intros log b st' H. discriminate H. Qed.

Lemma post_embed embed text st Q :
  (forall v, embed text = Some v -> Q v st) -> tx_post (tx_embed embed text) st Q.
Proof.
  intros HQ log b st' H. unfold tx_embed in H.
  destruct (embed text) as [v|] eqn:E; [|discriminate H].
  injection H as _ <- <-. exact (HQ v eq_refl).
Qed.

Lemma post_insert_message mk st Q :
  Q (next_id st) (snd (insert_message st mk)) -> tx_post (tx_insert_message mk) st Q.
Proof. intros HQ log b st' H. injection H as _ <- <-. exact HQ. Qed.

Lemma post_insert_cluster creator now st Q :
  Q (next_id st) (snd (insert_cluster st creator now)) ->
  tx_post (tx_insert_cluster creator now) st Q.
Proof. intros HQ log b st' H. injection H as _ <- <-. exact HQ. Qed.

Lemma post_insert_cluster_message c m now st Q :
  (is_some (find_cluster st c) = true -> is_some (find_message st m) = true ->
   Q tt (mkStore (messages st) (clusters st)
           (cluster_messages st ++ [mkClusterMessage c m now])
           (response_templates st) (next_id st))) ->
  tx_post (tx_insert_cluster_message c m now) st Q.
Proof.
  intros HQ log b st' H. unfold tx_insert_cluster_message, insert_cluster_message in H.
  destruct (is_some (find_cluster st c)) eqn:E1; [|discriminate H].
  destruct (is_some (find_message st m)) eqn:E2; [|discriminate H].
  destruct (negb (existsb (fun cm => cm_message_id cm =? m) (cluster_messages st)));
    [|discriminate H].
  injection H as _ <- <-. exact (HQ eq_refl eq_refl).
Qed.

Ltac wp :=
  repeat (cbv beta iota;
    match goal with
    | |- tx_post (tx_bind _ _) _ _ => apply post_bind
    | |- tx_post (tx_ret (match ?x with _ => _ end)) _ _ => destruct x eqn:?
    | |- tx_post (tx_ret _) _ _ => apply post_ret
    | |- tx_post (tx_read _) _ _ => apply post_read
    | |- tx_post (tx_fail _) _ _ => apply post_fail
    | |- tx_post (tx_embed _ _) _ _ => apply post_embed; intros ? ?
    | |- tx_post (tx_insert_message _) _ _ => apply post_insert_message
    | |- tx_post (tx_insert_cluster _ _) _ _ => apply post_insert_cluster
    | |- tx_post (tx_insert_cluster_message _ _ _) _ _ =>
        apply post_insert_cluster_message; intros ? ?
    | |- tx_post (match ?x with _ => _ end) _ _ => destruct x eqn:?
    end).

(** ** What an ingest adds to the store *)

Lemma members_In (st : Store) (c m : nat) :
  In m (members st c) <->
  exists cm, In cm (cluster_messages st) /\ cm_cluster_id cm = c /\ cm_message_id cm = m.
Proof.
  unfold members. rewrite in_map_iff. split.
  - intros (cm & <- & Hin). apply filter_In in Hin as [Hin Hc].
    exists cm. split; [exact Hin|]. split; [apply Nat.eqb_eq; exact Hc | reflexivity].
  - intros (cm & Hin & Hc & <-). exists cm. split; [reflexivity|].
    apply filter_In. split; [exact Hin | apply Nat.eqb_eq; exact Hc].
Qed.

Lemma cluster_of_members (st : Store) (m c : nat) :
  cluster_of st m = Some c -> In m (members st c).
Proof.
  unfold cluster_of. destruct (find (fun cm => cm_message_id cm =? m) (cluster_messages st))
    as [cm|] eqn:F; [|discriminate].
  intro H. injection H as <-. apply find_some in F as [Hin Hm].
  apply members_In. exists cm. split; [exact Hin|]. split; [reflexivity|].
  apply Nat.eqb_eq. exact Hm.
Qed.

Lemma trigram_query_candidate trgm st creator text row :
  trigram_query trgm st creator text = Some row ->
  exists x, In x (messages st) /\ m_is_paid_dm x = false /\ tm_id row = m_id x /\
            tm_cluster_id row = cluster_of st (m_id x).
Proof.
  intro H. apply first_best_In in H. unfold trigram_candidates in H.
  apply in_map_iff in H as (x & <- & Hx). apply filter_In in Hx as [Hx Hf].
  exists x. split; [exact Hx|]. split; [|split; reflexivity].
  destruct (m_is_paid_dm x); [|reflexivity].
  rewrite !andb_true_iff in Hf. destruct Hf as [[[[_ _] Hp] _] _]. discriminate Hp.
Qed.

Lemma vector_query_candidate cosd st creator e self row :
  vector_query cosd st creator e self = Some row ->
  exists x, In x (messages st) /\ m_is_paid_dm x = false /\ m_id x <> self /\
            mr_id row = m_id x /\ mr_cluster_id row = cluster_of st (m_id x).
Proof.
  intro H. apply first_best_In in H. unfold vector_candidates in H.
  apply in_flat_map in H as (x & Hx & Hr).
  destruct (m_embedding x) as [em|]; [|destruct Hr].
  destruct (String.eqb (m_creator_id x) creator && negb (is_some (m_replied_at x))
            && negb (m_is_paid_dm x) && negb (m_id x =? self)
            && cluster_open_or_null st (m_id x)) eqn:Hf; [|destruct Hr].
  destruct Hr as [<-|[]].
  rewrite !andb_true_iff in Hf. destruct Hf as [[[[_ _] Hp] Hs] _].
  exists x. split; [exact Hx|]. split; [destruct (m_is_paid_dm x); [discriminate Hp|reflexivity]|].
  split; [|split; reflexivity].
  apply negb_true_iff, Nat.eqb_neq in Hs. exact Hs.
Qed.

Ltac solve_candidate :=
  match goal with
  | H : trigram_query _ _ _ _ = Some ?row, Hc : tm_cluster_id ?row = Some _ |- _ =>
      let x := fresh "x" in let Hx := fresh in let Hpd := fresh in let Hcl := fresh in
      destruct (trigram_query_candidate _ _ _ _ _ H) as (x & Hx & Hpd & _ & Hcl);
      exists x; split; [exact Hx|]; split; [exact Hpd|]; rewrite Hc in Hcl; exact (eq_sym Hcl)
  | H : vector_query _ _ _ _ _ = Some ?row, Hc : mr_cluster_id ?row = Some _ |- _ =>
      let x := fresh "x" in let Hx := fresh in let Hpd := fresh in let Hcl := fresh in
      let Hs := fresh in
      destruct (vector_query_candidate _ _ _ _ _ _ H) as (x & Hx & Hpd & Hs & _ & Hcl);
      exists x; cbn in Hx; apply in_app_or in Hx as [Hx|[<-|[]]]; [|exfalso; apply Hs; reflexivity];
      split; [exact Hx|]; split; [exact Hpd|]; rewrite Hc in Hcl; exact (eq_sym Hcl)
  end.

Ltac close_adds :=
  unfold ingest_adds; cbn -[cluster_of trigram_query vector_query];
  split; [lia|]; split; [eexists; split; [reflexivity|split; reflexivity]|];
  eexists; split; [rewrite <- ?app_assoc; reflexivity|];
  let cm := fresh "cm" in let Hin := fresh "Hin" in
  intros cm Hin; repeat (destruct Hin as [Hin|Hin]; [subst cm|]); try contradiction;
  cbn -[cluster_of trigram_query vector_query];
  first [left; lia | right; solve_candidate].

Lemma ingest_tx_adds embed trgm cosd input now st :
  tx_post (ingest_tx embed trgm cosd input now) st
    (fun _ st' => ingest_adds (match in_isPaidDm input with Some true => true | _ => false end) st st').
Proof.
  unfold ingest_tx. cbv zeta.
  destruct (in_isPaidDm input) as [[|]|] eqn:Hp.
  all: wp.
  all: close_adds.
Qed.


Lemma ingest_tx_paid embed trgm cosd input now st :
  in_isPaidDm input = Some true ->
  tx_post (ingest_tx embed trgm cosd input now) st
    (fun r st' => r = Ingested (next_id st) (S (next_id st)) None None /\
       cluster_messages st'
       = (cluster_messages st ++ [mkClusterMessage (S (next_id st)) (next_id st) now])%list).
Proof.
  intro Hp. unfold ingest_tx. cbv zeta. rewrite Hp.
  wp. split; reflexivity.
Qed.

(** ** Well-formed uuids *)

Lemma ids_below_next_empty : ids_below_next empty_store.
Proof. repeat split; intros ? []. Qed.

Lemma ids_below_next_step embed trgm cosd (st st' : Store) :
  ids_below_next st -> op_step embed trgm cosd st st' -> ids_below_next st'.
Proof.
  intros HP Hs. revert st st' HP Hs.
  apply op_step_preserves; clear; unfold ids_below_next; cbn.
  - intros st mk Hmk (H1 & H2 & H3). repeat split.
    + intros m Hm. apply in_app_or in Hm as [Hm|[<-|[]]]; [specialize (H1 m Hm); lia|].
      rewrite Hmk. lia.
    + intros cl Hcl. specialize (H2 cl Hcl). lia.
    + intros cm Hcm. specialize (H3 cm Hcm). lia.
  - intros st creator now (H1 & H2 & H3). repeat split.
    + intros m Hm. specialize (H1 m Hm). lia.
    + intros cl Hcl. apply in_app_or in Hcl as [Hcl|[<-|[]]]; [specialize (H2 cl Hcl)|]; cbn; lia.
    + intros cm Hcm. specialize (H3 cm Hcm). lia.
  - intros st st' c m now (H1 & H2 & H3) H. unfold insert_cluster_message in H.
    destruct (find_cluster st c) as [cl|] eqn:F; cbn in H; [|discriminate H].
    destruct (is_some (find_message st m)); cbn in H; [|discriminate H].
    destruct (existsb (fun cm => cm_message_id cm =? m) (cluster_messages st));
      cbn in H; [discriminate H|].
    injection H as <-. cbn. repeat split; [exact H1 | exact H2|].
    intros cm Hcm. apply in_app_or in Hcm as [Hcm|[<-|[]]]; [exact (H3 cm Hcm)|]. cbn.
    apply find_some in F as [Fin Fc]. apply Nat.eqb_eq in Fc. subst c. exact (H2 cl Fin).
  - intros st id now (H1 & H2 & H3). exact (conj H1 (conj H2 H3)).
  - intros st creator e text now (H1 & H2 & H3). repeat split.
    + intros m Hm. specialize (H1 m Hm). lia.
    + intros cl Hcl. specialize (H2 cl Hcl). lia.
    + intros cm Hcm. specialize (H3 cm Hcm). lia.
  - intros st c (H1 & H2 & H3). repeat split.
    + intros m Hm. apply filter_In in Hm as [Hm _]. exact (H1 m Hm).
    + exact H2.
    + intros cm Hcm. apply filter_In in Hcm as [Hcm _]. exact (H3 cm Hcm).
  - intros st c (H1 & H2 & H3). repeat split.
    + exact H1.
    + intros cl Hcl. apply filter_In in Hcl as [Hcl _]. exact (H2 cl Hcl).
    + intros cm Hcm. apply filter_In in Hcm as [Hcm _]. exact (H3 cm Hcm).
  - intros st c m (H1 & H2 & H3). repeat split; [exact H1 | exact H2|].
    intros cm Hcm. apply filter_In in Hcm as [Hcm _]. exact (H3 cm Hcm).
  - intros st c now (H1 & H2 & H3). repeat split; [exact H1| |exact H3].
    intros cl Hcl. apply in_map_iff in Hcl as (cl0 & <- & Hcl0).
    destruct (c_id cl0 =? c); exact (H2 cl0 Hcl0).
Qed.

Lemma reachable_ids_below_next embed trgm cosd (st : Store) :
  reachable embed trgm cosd st -> ids_below_next st.
Proof.
  intro Hr. refine (steps_preserve _ embed trgm cosd _ _ _ Hr ids_below_next_empty).
  intros a b Ha Hs. exact (ids_below_next_step embed trgm cosd a b Ha Hs).
Qed.

(** ** An isolated paid cluster stays isolated *)

Lemma paid_isolated_shrink (c mid : nat) (st st' : Store) :
  paid_isolated c mid st -> next_id st <= next_id st' ->
  (forall x, In x (messages st') -> In x (messages st)) ->
  (forall cm, In cm (cluster_messages st') -> In cm (cluster_messages st)) ->
  paid_isolated c mid st'.
Proof.
  intros (H1 & H2 & H3 & H4) Hn Hm Hcm. repeat split; [lia|lia| |].
  - intros m Hin. apply H3. apply members_In in Hin as (cm & Hin & Hc & Hmid).
    apply members_In. exists cm. auto.
  - intros x Hx. apply H4. apply Hm. exact Hx.
Qed.

Lemma paid_isolated_ingest (c mid : nat) (paid : bool) (st st' : Store) :
  paid_isolated c mid st -> ingest_adds paid st st' -> paid_isolated c mid st'.
Proof.
  intros (H1 & H2 & H3 & H4) (Hn & (msg & Hmsgs & Hid & _) & (added & Hcms & Hadd)).
  repeat split; [lia|lia| |].
  - intros m Hin. apply members_In in Hin as (cm & Hin & Hc & Hmid).
    rewrite Hcms in Hin. apply in_app_or in Hin as [Hin|Hin].
    + apply H3. apply members_In. exists cm. auto.
    + destruct (Hadd cm Hin) as [Hge | (x & Hx & Hpd & Hcl)]; [lia|].
      rewrite Hc in Hcl. apply cluster_of_members, H3 in Hcl.
      rewrite (H4 x Hx Hcl) in Hpd. discriminate Hpd.
  - intros x Hx Hxid. rewrite Hmsgs in Hx. apply in_app_or in Hx as [Hx|[<-|[]]].
    + exact (H4 x Hx Hxid).
    + lia.
Qed.

Ltac shrink_tac :=
  intros; eapply paid_isolated_shrink; [eassumption | cbn; lia | |];
  cbn; let Hin := fresh "Hin" in intros ? Hin;
  try (apply filter_In in Hin; destruct Hin as [Hin _]); exact Hin.

Lemma paid_isolated_step embed trgm cosd (c mid : nat) (st st' : Store) :
  paid_isolated c mid st -> op_step embed trgm cosd st st' -> paid_isolated c mid st'.
Proof.
  intros HP Hs. destruct Hs as [st input now | st id txt chs now | st cl m now].
  - unfold ingest_post, ingestMessage.
    destruct (negb (needsResponse (in_text input))); [exact HP|].
    unfold run_tx.
    destruct (ingest_tx embed trgm cosd input now st) as [log [e|[r st1]]] eqn:E;
      [exact HP|].
    exact (paid_isolated_ingest c mid _ st st1 HP
             (ingest_tx_adds embed trgm cosd input now st log r st1 E)).
  - unfold actionCluster. destruct chs; [exact HP|].
    assert (Ht : tx_preserves (paid_isolated c mid) (action_tx id txt now)).
    { apply action_tx_preserves; shrink_tac. }
    pose proof (run_tx_preserves _ (action_tx id txt now) st Ht HP) as H.
    destruct (run_tx (action_tx id txt now) st) as [[log s1] [e|[]]]; exact H.
  - unfold removeClusterMessage.
    assert (Ht : tx_preserves (paid_isolated c mid) (remove_tx cl m now)).
    { apply remove_tx_preserves; shrink_tac. }
    pose proof (run_tx_preserves _ (remove_tx cl m now) st Ht HP) as H.
    destruct (run_tx (remove_tx cl m now) st) as [[log s1] r]; exact H.
Qed.

Lemma filter_all_false {A} (f : A -> bool) (l : list A) :
  (forall x, In x l -> f x = false) -> filter f l = [].
Proof.
  induction l as [|x r IH]; cbn; intro H; [reflexivity|].
  rewrite (H x (or_introl eq_refl)). apply IH. intros y Hy. apply H. right. exact Hy.
Qed.

(** ** C6 *)

(** C6: a paid message ingested into a reachable store gets a cluster that
    did not exist before, holding exactly that message, with no match
    reported (no lexical or vector matching is done for it); and along any
    later sequence of ingests, actions and member removals the cluster never
    holds another message. *)
Theorem paid_message_isolated {embed trgm cosd} (st : Store) (input : IngestMessageInput)
    (now : Z) (log : list string) (st' : Store) (mid c : nat)
    (matched : option nat) (sim : option Q)
    (Hr : reachable embed trgm cosd st)
    (Hp : in_isPaidDm input = Some true)
    (Hi : ingestMessage embed trgm cosd st input now
          = (log, st', inr (Ingested mid c matched sim))) :
  find_cluster st c = None /\ members st' c = [mid] /\ matched = None /\ sim = None /\
  (forall st'', steps embed trgm cosd st' st'' ->
     forall m, In m (members st'' c) -> m = mid).
Proof.
  assert (Hpost : op_step embed trgm cosd st st').
  { replace st' with (ingest_post embed trgm cosd st input now)
      by (unfold ingest_post; rewrite Hi; reflexivity).
    apply step_ingest. }
  pose proof (reachable_ids_below_next embed trgm cosd st Hr) as (W1 & W2 & W3).
  pose proof (reachable_ids_below_next embed trgm cosd st' (steps_snoc _ _ _ Hr Hpost))
    as (W1' & W2' & W3').
  unfold ingestMessage in Hi.
  destruct (negb (needsResponse (in_text input))); [discriminate Hi|].
  unfold run_tx in Hi.
  destruct (ingest_tx embed trgm cosd input now st) as [l [e|[r st1]]] eqn:E;
    [discriminate Hi|].
  injection Hi as _ <- Hres. subst r.
  destruct (ingest_tx_paid embed trgm cosd input now st Hp l _ st1 E) as [Hres Hcms].
  injection Hres as -> -> -> ->.
  destruct (ingest_tx_adds embed trgm cosd input now st l _ st1 E)
    as (_ & (msg & Hmsgs & Hid & Hpd) & _).
  rewrite Hp in Hpd.
  assert (Hmem : members st1 (S (next_id st)) = [next_id st]).
  { unfold members. rewrite Hcms, filter_app, map_app.
    rewrite filter_all_false.
    - cbn. rewrite Nat.eqb_refl. reflexivity.
    - intros cm Hcm. apply Nat.eqb_neq. specialize (W3 cm Hcm). lia. }
  split; [|split; [exact Hmem | split; [reflexivity | split; [reflexivity|]]]].
  - destruct (find_cluster st (S (next_id st))) as [cl|] eqn:F; [|reflexivity].
    apply find_some in F as [Fin Fc]. apply Nat.eqb_eq in Fc.
    specialize (W2 cl Fin). lia.
  - intros st'' Hs m Hm.
    assert (HI : paid_isolated (S (next_id st)) (next_id st) st1).
    { repeat split.
      - assert (Hin : In (mkClusterMessage (S (next_id st)) (next_id st) now)
                        (cluster_messages st1))
          by (rewrite Hcms; apply in_or_app; right; left; reflexivity).
        exact (W3' _ Hin).
      - assert (Hin : In msg (messages st1))
          by (rewrite Hmsgs; apply in_or_app; right; left; reflexivity).
        rewrite <- Hid. exact (W1' _ Hin).
      - rewrite Hmem. intros m' [<-|[]]. reflexivity.
      - intros x Hx Hxid. rewrite Hmsgs in Hx. apply in_app_or in Hx as [Hx|[<-|[]]].
        + specialize (W1 x Hx). lia.
        + exact Hpd. }
    refine (proj1 (proj2 (proj2
      (steps_preserve (paid_isolated (S (next_id st)) (next_id st)) embed trgm cosd
         _ st1 st'' Hs HI))) m Hm).
    intros a b Ha Hab. exact (paid_isolated_step embed trgm cosd _ _ a b Ha Hab).
Qed.

Lemma paid_message_isolated_witness :
  reachable embed_codes trgm_exact cosd_exact lex_2 /\
  ingestMessage embed_codes trgm_exact cosd_exact lex_2 paid_in 103
  = ([QUESTION], paid_1, inr (Ingested 3 4 None None)) /\
  members paid_1 4 = [3].
Proof.
  assert (Hi : ingestMessage embed_codes trgm_exact cosd_exact lex_2 paid_in 103
               = ([QUESTION], paid_1, inr (Ingested 3 4 None None)))
    by (vm_compute; reflexivity).
  split; [exact reachable_lex_2|]. split; [exact Hi|].
  destruct (paid_message_isolated lex_2 paid_in 103 _ _ _ _ _ _ reachable_lex_2 eq_refl Hi)
    as (_ & Hm & _).
  exact Hm.
Defined.

(** * Further properties of the services *)


Lemma insert_by_created_at_perm (m : Message) (l : list Message) :
  Permutation (insert_by_created_at m l) (m :: l).
Proof.
  induction l as [|y r IH]; cbn; [reflexivity|].
  destruct (m_created_at m <=? m_created_at y)%Z; [reflexivity|].
  rewrite IH. apply perm_swap.
Qed.

Lemma sort_by_created_at_perm (l : list Message) : Permutation (sort_by_created_at l) l.
Proof.
  induction l as [|x r IH]; cbn; [reflexivity|].
  rewrite insert_by_created_at_perm, IH. reflexivity.
Qed.


Lemma find_map_same {A} (f : A -> bool) (g : A -> A) (l : list A) :
  (forall x, f (g x) = f x) -> find f (map g l) = option_map g (find f l).
Proof.
  intro H. induction l as [|x r IH]; cbn; [reflexivity|]. rewrite H.
  destruct (f x); [reflexivity | exact IH].
Qed.

Lemma members_nonempty_existsb (st : Store) (c : nat) :
  existsb (fun cm => cm_cluster_id cm =? c) (cluster_messages st) = true <-> members st c <> [].
Proof.
  rewrite existsb_exists. split.
  - intros (cm & Hin & Hc) Hm. apply Nat.eqb_eq in Hc.
    assert (H : In (cm_message_id cm) (members st c)) by (apply members_In; exists cm; auto).
    rewrite Hm in H. destruct H.
  - intro H. destruct (members st c) as [|x r] eqn:E; [contradiction|].
    assert (Hx : In x (members st c)) by (rewrite E; left; reflexivity).
    apply members_In in Hx as (cm & Hin & Hc & _). exists cm. split; [exact Hin|].
    apply Nat.eqb_eq. exact Hc.
Qed.

Lemma members_delete_membership (st : Store) (c m c' x : nat) :
  In x (members (delete_membership c m st) c') <-> In x (members st c') /\ ~ (c' = c /\ x = m).
Proof.
  rewrite !members_In. unfold delete_membership. cbn. split.
  - intros (cm & Hin & Hc & Hx). apply filter_In in Hin as [Hin Hf].
    split; [exists cm; auto|]. intros [-> ->].
    rewrite Hc, Hx, !Nat.eqb_refl in Hf. discriminate Hf.
  - intros [(cm & Hin & Hc & Hx) Hn]. exists cm. split; [|auto].
    apply filter_In. split; [exact Hin|]. apply negb_true_iff.
    destruct (cm_cluster_id cm =? c) eqn:E1; [|reflexivity].
    destruct (cm_message_id cm =? m) eqn:E2; [|reflexivity].
    apply Nat.eqb_eq in E1, E2. exfalso. apply Hn. split; congruence.
Qed.

Lemma members_delete_cluster_other (st : Store) (c c' : nat) :
  c' <> c -> members (delete_cluster c st) c' = members st c'.
Proof.
  intro Hne. unfold members, delete_cluster. cbn.
  induction (cluster_messages st) as [|cm l IH]; cbn; [reflexivity|].
  destruct (cm_cluster_id cm =? c) eqn:E; cbn.
  - apply Nat.eqb_eq in E. destruct (cm_cluster_id cm =? c') eqn:F; [|exact IH].
    apply Nat.eqb_eq in F. congruence.
  - destruct (cm_cluster_id cm =? c'); cbn; rewrite IH; reflexivity.
Qed.

Lemma remove_count_zero (st : Store) (c m : nat) :
  List.length (filter (fun cm => (cm_cluster_id cm =? c) && (cm_message_id cm =? m))
                 (cluster_messages st)) = 0 <-> ~ In m (members st c).
Proof.
  rewrite length_zero_iff_nil, members_In. split.
  - intros H (cm & Hin & Hc & Hm).
    assert (Hf : In cm (filter (fun cm => (cm_cluster_id cm =? c) && (cm_message_id cm =? m))
                          (cluster_messages st))).
    { apply filter_In. split; [exact Hin|]. rewrite Hc, Hm, !Nat.eqb_refl. reflexivity. }
    rewrite H in Hf. destruct Hf.
  - intro H. destruct (filter _ _) as [|cm r] eqn:E; [reflexivity|]. exfalso. apply H.
    assert (Hin : In cm (filter (fun cm => (cm_cluster_id cm =? c) && (cm_message_id cm =? m))
                          (cluster_messages st))) by (rewrite E; left; reflexivity).
    apply filter_In in Hin as [Hin Hf]. apply andb_true_iff in Hf as [Hc Hm].
    exists cm. split; [exact Hin|]. split; apply Nat.eqb_eq; assumption.
Qed.

Lemma removeClusterMessage_cases (st : Store) (c m : nat) (now : Z) :
  (~ In m (members st c) /\
   removeClusterMessage st c m now = (st, inl (ErrNotFound "Message not found in cluster"))) \/
  (In m (members st c) /\ members (delete_membership c m st) c <> [] /\
   removeClusterMessage st c m now = (touch_cluster c now (delete_membership c m st), inr (Some c))) \/
  (In m (members st c) /\ members (delete_membership c m st) c = [] /\
   removeClusterMessage st c m now = (delete_cluster c (delete_membership c m st), inr None)).
Proof.
  unfold removeClusterMessage, run_tx, remove_tx, tx_bind, tx_read, tx_modify, tx_fail, tx_ret.
  cbv beta iota.
  destruct (List.length (filter (fun cm => (cm_cluster_id cm =? c) && (cm_message_id cm =? m))
                 (cluster_messages st))) eqn:L.
  - left. split; [apply remove_count_zero; exact L | reflexivity].
  - assert (Hin : In m (members st c)).
    { destruct (in_dec Nat.eq_dec m (members st c)) as [H|H]; [exact H|].
      apply remove_count_zero in H. rewrite H in L. discriminate L. }
    right. destruct (existsb (fun cm => cm_cluster_id cm =? c)
                      (cluster_messages (delete_membership c m st))) eqn:E.
    + left. split; [exact Hin|]. split; [apply members_nonempty_existsb; exact E | reflexivity].
    + right. split; [exact Hin|]. split; [|reflexivity].
      destruct (members (delete_membership c m st) c) eqn:M; [reflexivity|].
      assert (Hne : members (delete_membership c m st) c <> []) by (rewrite M; discriminate).
      apply members_nonempty_existsb in Hne. congruence.
Qed.

Lemma member_rows_In (st : Store) (c : nat) (x : Message) :
  In x (member_rows st c) <-> In x (messages st) /\ In (m_id x) (members st c).
Proof.
  unfold member_rows. rewrite in_flat_map, members_In. split.
  - intros (cm & Hcm & Hx). apply filter_In in Hcm as [Hcm Hc]. apply filter_In in Hx as [Hx Hm].
    apply Nat.eqb_eq in Hc, Hm.
    split; [exact Hx|]. exists cm. split; [exact Hcm|]. split; [exact Hc | symmetry; exact Hm].
  - intros [Hx (cm & Hcm & Hc & Hm)]. exists cm. split.
    + apply filter_In. split; [exact Hcm | apply Nat.eqb_eq; exact Hc].
    + apply filter_In. split; [exact Hx | apply Nat.eqb_eq; symmetry; exact Hm].
Qed.

Lemma memberships_resolve_empty : memberships_resolve empty_store.
Proof. intros cm []. Qed.

Lemma memberships_resolve_step embed trgm cosd (st st' : Store) :
  memberships_resolve st -> op_step embed trgm cosd st st' -> memberships_resolve st'.
Proof.
  intros HP Hs. revert st st' HP Hs.
  apply op_step_preserves; clear; unfold memberships_resolve; cbn.
  - intros st mk _ H cm Hcm. destruct (H cm Hcm) as [Hc (m & Hm & Hid)].
    split; [exact Hc|]. exists m. split; [apply in_or_app; left; exact Hm | exact Hid].
  - intros st creator now H cm Hcm. destruct (H cm Hcm) as [(cl & Hcl & Hid) Hm].
    split; [|exact Hm]. exists cl. split; [apply in_or_app; left; exact Hcl | exact Hid].
  - intros st st' c m now H Hi. unfold insert_cluster_message in Hi.
    destruct (find_cluster st c) as [cl|] eqn:F; cbn in Hi; [|discriminate Hi].
    destruct (find_message st m) as [mm|] eqn:G; cbn in Hi; [|discriminate Hi].
    destruct (existsb (fun cm => cm_message_id cm =? m) (cluster_messages st));
      cbn in Hi; [discriminate Hi|].
    injection Hi as <-. cbn. intros cm Hcm.
    apply in_app_or in Hcm as [Hcm|[<-|[]]]; [exact (H cm Hcm)|]. cbn.
    apply find_some in F as [Fin Fc]. apply find_some in G as [Gin Gc].
    split; [exists cl | exists mm]; split; auto; apply Nat.eqb_eq; assumption.
  - intros st id now H. exact H.
  - intros st creator e text now H. exact H.
  - intros st c H cm Hcm. apply filter_In in Hcm as [Hcm Hk].
    destruct (H cm Hcm) as [Hc (m & Hm & Hid)]. split; [exact Hc|].
    exists m. split; [|exact Hid]. apply filter_In. split; [exact Hm|]. rewrite Hid. exact Hk.
  - intros st c H cm Hcm. apply filter_In in Hcm as [Hcm Hk].
    destruct (H cm Hcm) as [(cl & Hcl & Hid) Hm]. split; [|exact Hm].
    exists cl. split; [|exact Hid]. apply filter_In. split; [exact Hcl|]. rewrite Hid. exact Hk.
  - intros st c m H cm Hcm. apply filter_In in Hcm as [Hcm _]. exact (H cm Hcm).
  - intros st c now H cm Hcm. destruct (H cm Hcm) as [(cl & Hcl & Hid) Hm]. split; [|exact Hm].
    eexists. split; [apply in_map; exact Hcl|]. destruct (c_id cl =? c); exact Hid.
Qed.

Lemma reachable_memberships_resolve embed trgm cosd (st : Store) :
  reachable embed trgm cosd st -> memberships_resolve st.
Proof.
  intro Hr. refine (steps_preserve _ embed trgm cosd _ _ _ Hr memberships_resolve_empty).
  intros a b Ha Hs. exact (memberships_resolve_step embed trgm cosd a b Ha Hs).
Qed.




Lemma find_cluster_touch (st : Store) (c c' : nat) (now : Z) :
  find_cluster (touch_cluster c now st) c'
  = option_map (fun cl => if c_id cl =? c
                          then mkCluster (c_id cl) (c_creator_id cl) (c_status cl)
                                 (c_response_text cl) (c_created_at cl) now
                          else cl) (find_cluster st c').
Proof.
  unfold find_cluster, touch_cluster. cbn. apply find_map_same.
  intro cl. destruct (c_id cl =? c); reflexivity.
Qed.

Lemma find_cluster_delete_cluster_other (st : Store) (c c' : nat) :
  c' <> c -> find_cluster (delete_cluster c st) c' = find_cluster st c'.
Proof.
  intro Hne. unfold find_cluster, delete_cluster. cbn.
  induction (clusters st) as [|cl l IH]; cbn; [reflexivity|].
  destruct (c_id cl =? c) eqn:E; cbn.
  - destruct (c_id cl =? c') eqn:F; [|exact IH].
    apply Nat.eqb_eq in E, F. congruence.
  - destruct (c_id cl =? c'); [reflexivity | exact IH].
Qed.

(** X5: a successful [removeClusterMessage] removes exactly that one membership, keeps messages, templates and the other clusters, and either deletes the cluster (it had no other member) or keeps it with [updated_at] set to now. *)
Theorem removeClusterMessage_effect (st : Store) (clusterId messageId : nat) (now : Z)
    (st' : Store) (r : option nat)
    (H : removeClusterMessage st clusterId messageId now = (st', inr r)) :
  In messageId (members st clusterId) /\
  messages st' = messages st /\ response_templates st' = response_templates st /\
  (forall c x, In x (members st' c) <->
               In x (members st c) /\ ~ (c = clusterId /\ x = messageId)) /\
  (forall c, c <> clusterId -> find_cluster st' c = find_cluster st c) /\
  ((r = None /\ (forall x, In x (members st clusterId) -> x = messageId) /\
    find_cluster st' clusterId = None) \/
   (r = Some clusterId /\ members st' clusterId <> [] /\
    forall cl, find_cluster st clusterId = Some cl ->
      find_cluster st' clusterId
      = Some (mkCluster (c_id cl) (c_creator_id cl) (c_status cl) (c_response_text cl)
                        (c_created_at cl) now))).
Proof.
  destruct (removeClusterMessage_cases st clusterId messageId now)
    as [[_ E] | [[Hin [Hne E]] | [Hin [Hnil E]]]]; rewrite E in H; [discriminate H| |];
    injection H as <- <-.
  - split; [exact Hin|]. split; [reflexivity|]. split; [reflexivity|]. split.
    { intros c x. rewrite (members_same_tables _ (delete_membership clusterId messageId st))
        by reflexivity. apply members_delete_membership. }
    split.
    { intros c Hc. rewrite find_cluster_touch. unfold find_cluster, delete_membership. cbn.
      fold (find_cluster st c). destruct (find_cluster st c) as [cl|] eqn:F; [|reflexivity].
      cbn. apply find_some in F as [_ F]. apply Nat.eqb_eq in F.
      destruct (c_id cl =? clusterId) eqn:G; [apply Nat.eqb_eq in G; congruence | reflexivity]. }
    right. split; [reflexivity|]. split.
    { rewrite (members_same_tables _ (delete_membership clusterId messageId st)) by reflexivity.
      exact Hne. }
    intros cl F. rewrite find_cluster_touch. unfold find_cluster, delete_membership. cbn.
    fold (find_cluster st clusterId). rewrite F. cbn.
    apply find_some in F as [_ F]. rewrite F. reflexivity.
  - split; [exact Hin|]. split; [reflexivity|]. split; [reflexivity|]. split.
    { intros c x. destruct (Nat.eq_dec c clusterId) as [->|Hc].
      - rewrite members_delete_cluster. split; [intros []|].
        intros [Hx Hn]. exfalso.
        assert (Hx' : In x (members (delete_membership clusterId messageId st) clusterId)).
        { apply members_delete_membership. split; [exact Hx | exact Hn]. }
        rewrite Hnil in Hx'. destruct Hx'.
      - rewrite members_delete_cluster_other by exact Hc. apply members_delete_membership. }
    split.
    { intros c Hc. rewrite find_cluster_delete_cluster_other by exact Hc. reflexivity. }
    left. split; [reflexivity|]. split; [|apply find_cluster_delete_cluster].
    intros x Hx. destruct (Nat.eq_dec x messageId) as [Hxm|Hxm]; [exact Hxm|].
    assert (Hx' : In x (members (delete_membership clusterId messageId st) clusterId)).
    { apply members_delete_membership. split; [exact Hx|]. intros [_ E']. contradiction. }
    rewrite Hnil in Hx'. destruct Hx'.
Qed.

Lemma removeClusterMessage_effect_witness :
  removeClusterMessage lex_2 1 2 200 = (fst (removeClusterMessage lex_2 1 2 200), inr (Some 1)) /\
  messages (fst (removeClusterMessage lex_2 1 2 200)) = messages lex_2.
Proof.
  assert (H : removeClusterMessage lex_2 1 2 200
              = (fst (removeClusterMessage lex_2 1 2 200), inr (Some 1))) by (vm_compute; reflexivity).
  split; [exact H|].
  exact (proj1 (proj2 (removeClusterMessage_effect _ _ _ _ _ _ H))).
Defined.

Lemma find_exists {A} (f : A -> bool) (l : list A) (x : A) :
  In x l -> f x = true -> exists y, find f l = Some y.
Proof.
  induction l as [|y r IH]; cbn; [intros []|].
  intros [<-|Hx] Hf; [rewrite Hf; eexists; reflexivity|].
  destruct (f y); [eexists; reflexivity | exact (IH Hx Hf)].
Qed.

Lemma member_cluster_exists (st : Store) (c m : nat) :
  memberships_resolve st -> In m (members st c) -> exists cl, find_cluster st c = Some cl.
Proof.
  intros HR Hm. apply members_In in Hm as (cm & Hcm & Hc & _).
  destruct (HR cm Hcm) as [(cl & Hcl & Hid) _].
  apply (find_exists (fun cl => c_id cl =? c) _ cl Hcl). rewrite Hid, Hc. apply Nat.eqb_refl.
Qed.

Lemma member_row_exists (st : Store) (c m : nat) :
  memberships_resolve st -> In m (members st c) -> exists x, In x (member_rows st c) /\ m_id x = m.
Proof.
  intros HR Hm. pose proof Hm as Hm'. apply members_In in Hm as (cm & Hcm & Hc & Hmid).
  destruct (HR cm Hcm) as [_ (x & Hx & Hid)]. exists x. split; [|congruence].
  apply member_rows_In. split; [exact Hx|]. rewrite Hid, Hmid. exact Hm'.
Qed.

(** X6: in a reachable store, the resolver's [removeClusterMessage] on a member returns null when the cluster was deleted, and otherwise the updated cluster whose messages are its remaining (non-empty) member rows, without the removed message. *)
Theorem removeClusterMessage_returns_cluster {embed trgm cosd} (st : Store)
    (clusterId messageId : nat) (now : Z)
    (Hr : reachable embed trgm cosd st) (Hm : In messageId (members st clusterId)) :
  match removeClusterMessage_result st clusterId messageId now with
  | (st', inr None) =>
      find_cluster st' clusterId = None /\
      forall x, In x (members st clusterId) -> x = messageId
  | (st', inr (Some cluster)) =>
      v_id cluster = clusterId /\ v_updatedAt cluster = now /\
      v_messages cluster = Some (getClusterMessages st' clusterId) /\
      getClusterMessages st' clusterId <> [] /\
      forall x, In x (getClusterMessages st' clusterId) -> m_id x <> messageId
  | (_, inl _) => False
  end.
Proof.
  pose proof (reachable_memberships_resolve _ _ _ _ Hr) as HR.
  unfold removeClusterMessage_result.
  destruct (removeClusterMessage_cases st clusterId messageId now)
    as [[Hn _] | [[_ [Hne E]] | [_ [Hnil E]]]]; [contradiction| |]; rewrite E.
  - destruct (member_cluster_exists st clusterId messageId HR Hm) as [cl F].
    unfold getCluster. rewrite find_cluster_touch.
    assert (F' : find_cluster (delete_membership clusterId messageId st) clusterId = Some cl)
      by exact F.
    rewrite F'. pose proof F as Fc. apply find_some in Fc as [_ Fc].
    cbv beta iota delta [option_map]. rewrite Fc. apply Nat.eqb_eq in Fc.
    cbn [v_id v_updatedAt v_messages with_messages cluster_view c_id c_updated_at].
    split; [exact Fc|]. split; [reflexivity|].
    split; [reflexivity|].
    set (st' := touch_cluster clusterId now (delete_membership clusterId messageId st)).
    assert (Hmem : forall x, In x (members st' clusterId) <-> In x (members st clusterId) /\ x <> messageId).
    { intro x. unfold st'.
      rewrite (members_same_tables _ (delete_membership clusterId messageId st)) by reflexivity.
      rewrite members_delete_membership. intuition. }
    split.
    + destruct (members st' clusterId) as [|x r] eqn:Ex.
      { exfalso. apply Hne. rewrite <- (members_same_tables st') by reflexivity. exact Ex. }
      assert (Hx : In x (members st' clusterId)) by (rewrite Ex; left; reflexivity).
      assert (Hx' : In x (members st clusterId)) by (apply Hmem; left; reflexivity).
      destruct (member_row_exists st clusterId x HR Hx') as (y & Hy & Hyx).
      apply member_rows_In in Hy as [Hy _].
      assert (Hy' : In y (getClusterMessages st' clusterId)).
      { unfold getClusterMessages.
        apply (Permutation_in _ (Permutation_sym (sort_by_created_at_perm _))), member_rows_In.
        split; [exact Hy|]. rewrite Hyx. exact Hx. }
      intro Hnil'. rewrite Hnil' in Hy'. destruct Hy'.
    + intros x Hx. unfold getClusterMessages in Hx.
      apply (Permutation_in _ (sort_by_created_at_perm _)), member_rows_In in Hx as [_ Hx].
      apply Hmem in Hx as [_ Hx]. exact Hx.
  - split; [apply find_cluster_delete_cluster|].
    intros x Hx. destruct (Nat.eq_dec x messageId) as [Hxm|Hxm]; [exact Hxm|].
    assert (Hx' : In x (members (delete_membership clusterId messageId st) clusterId)).
    { apply members_delete_membership. split; [exact Hx|]. intros [_ E']. contradiction. }
    rewrite Hnil in Hx'. destruct Hx'.
Qed.

Lemma removeClusterMessage_returns_cluster_witness :
  In 2 (members lex_2 1) /\
  match removeClusterMessage_result lex_2 1 2 200 with
  | (st', inr None) =>
      find_cluster st' 1 = None /\ forall x, In x (members lex_2 1) -> x = 2
  | (st', inr (Some cluster)) =>
      v_id cluster = 1 /\ v_updatedAt cluster = 200%Z /\
      v_messages cluster = Some (getClusterMessages st' 1) /\
      getClusterMessages st' 1 <> [] /\
      forall x, In x (getClusterMessages st' 1) -> m_id x <> 2
  | (_, inl _) => False
  end.
Proof.
  assert (Hm : In 2 (members lex_2 1)) by (apply existsb_nat_eqb_In; vm_compute; reflexivity).
  split; [exact Hm|].
  exact (removeClusterMessage_returns_cluster lex_2 1 2 200 reachable_lex_2 Hm).
Defined.

Lemma deleteCluster_cases (st : Store) (id : nat) :
  (find_cluster st id = None /\
   deleteCluster st id = (st, inl (ErrNotFound "Cluster not found"))) \/
  (find_cluster st id <> None /\
   deleteCluster st id = (delete_cluster id (delete_member_messages id st), inr tt)).
Proof.
  unfold deleteCluster, run_tx, delete_tx, tx_bind, tx_read, tx_modify, tx_fail.
  cbv beta iota. destruct (find_cluster st id) eqn:F.
  - right. split; [discriminate | reflexivity].
  - left. split; reflexivity.
Qed.

Lemma delete_cluster_member_messages_tables (st : Store) (id : nat) :
  let st' := delete_cluster id (delete_member_messages id st) in
  find_cluster st' id = None /\ members st' id = [] /\
  (forall msg, In msg (messages st') <-> In msg (messages st) /\ ~ In (m_id msg) (members st id)) /\
  (forall cl, In cl (clusters st') <-> In cl (clusters st) /\ c_id cl <> id) /\
  response_templates st' = response_templates st /\
  (forall cm, In cm (cluster_messages st') <->
     In cm (cluster_messages st) /\ cm_cluster_id cm <> id /\ ~ In (cm_message_id cm) (members st id)).
Proof.
  cbv zeta. split; [apply find_cluster_delete_cluster|].
  split; [apply members_delete_cluster|].
  unfold delete_cluster, delete_member_messages. cbn.
  split; [|split; [|split; [reflexivity|]]].
  - intro msg. rewrite filter_In, negb_true_iff, <- not_true_iff_false, existsb_nat_eqb_In.
    tauto.
  - intro cl. rewrite filter_In, negb_true_iff, <- not_true_iff_false, Nat.eqb_eq. tauto.
  - intro cm. rewrite !filter_In, !negb_true_iff, <- !not_true_iff_false, Nat.eqb_eq,
      existsb_nat_eqb_In. tauto.
Qed.

(** X8: a successful [deleteCluster] removes the cluster row, exactly its member messages and (when every message has at most one membership) exactly its memberships; other clusters and the templates stay. *)
Theorem deleteCluster_effect (st st' : Store) (id : nat)
    (H : deleteCluster st id = (st', inr tt)) :
  find_cluster st id <> None /\
  find_cluster st' id = None /\ members st' id = [] /\
  (forall msg, In msg (messages st') <-> In msg (messages st) /\ ~ In (m_id msg) (members st id)) /\
  (forall cl, In cl (clusters st') <-> In cl (clusters st) /\ c_id cl <> id) /\
  response_templates st' = response_templates st /\
  (one_cluster_per_message st ->
   forall cm, In cm (cluster_messages st') <-> In cm (cluster_messages st) /\ cm_cluster_id cm <> id).
Proof.
  destruct (deleteCluster_cases st id) as [[_ E] | [Hf E]]; rewrite E in H; [discriminate H|].
  injection H as <-. split; [exact Hf|].
  destruct (delete_cluster_member_messages_tables st id) as (H1 & H2 & H3 & H4 & H5 & H6).
  split; [exact H1|]. split; [exact H2|]. split; [exact H3|]. split; [exact H4|].
  split; [exact H5|]. intros Hu cm. rewrite H6. split; [tauto|].
  intros [Hin Hc]. split; [exact Hin|]. split; [exact Hc|].
  intro Hm. apply members_In in Hm as (cm2 & Hin2 & Hc2 & Hm2).
  assert (E2 : cm2 = cm) by exact (NoDup_map_same cm_message_id _ cm2 cm Hu Hin2 Hin Hm2).
  subst cm2. contradiction.
Qed.

Lemma deleteCluster_effect_witness :
  deleteCluster lex_2 1 = (fst (deleteCluster lex_2 1), inr tt) /\
  find_cluster (fst (deleteCluster lex_2 1)) 1 = None.
Proof.
  assert (H : deleteCluster lex_2 1 = (fst (deleteCluster lex_2 1), inr tt))
    by (vm_compute; reflexivity).
  split; [exact H | exact (proj1 (proj2 (deleteCluster_effect _ _ _ H)))].
Defined.

(** X9: a successful [actionCluster] is the template upsert followed by a successful [deleteCluster] of the same cluster. *)
Theorem actionCluster_is_upsert_then_delete (st : Store) (id : nat) (responseText : string)
    (channelIds : list string) (now : Z) (st' : Store) (snap : Cluster)
    (H : actionCluster st id responseText channelIds now = (st', inr snap)) :
  exists creator e,
    action_cluster_data st id = Some (creator, Some e) /\
    deleteCluster (upsert_template st creator responseText e now) id = (st', inr tt).
Proof.
  apply actionCluster_committed in H as (_ & _ & creator & e & Hd & ->).
  exists creator, e. split; [exact Hd|].
  destruct (deleteCluster_cases (upsert_template st creator responseText e now) id)
    as [[Hf _] | [_ E]]; [|exact E].
  exfalso. unfold action_cluster_data in Hd.
  destruct (upsert_template_tables st creator responseText e now) as (_ & Hc & _).
  unfold find_cluster in Hf. rewrite Hc in Hf. fold (find_cluster st id) in Hf.
  rewrite Hf in Hd. discriminate Hd.
Qed.

Lemma actionCluster_is_upsert_then_delete_witness :
  actionCluster two_2 1 "Thanks!" ["channel-1"] 102
    = (two_3, inr (actioned_snapshot 1 "Thanks!" 102)) /\
  exists creator e,
    action_cluster_data two_2 1 = Some (creator, Some e) /\
    deleteCluster (upsert_template two_2 creator "Thanks!" e 102) 1 = (two_3, inr tt).
Proof.
  assert (H : actionCluster two_2 1 "Thanks!" ["channel-1"] 102
              = (two_3, inr (actioned_snapshot 1 "Thanks!" 102)))
    by (vm_compute; reflexivity).
  split; [exact H | exact (actionCluster_is_upsert_then_delete _ _ _ _ _ _ _ H)].
Defined.




Ltac close_stores :=
  unfold stored_message; try match goal with H : in_isPaidDm _ = _ |- _ => rewrite H end; cbn -[cluster_of trigram_query vector_query members];
  do 4 eexists; split; [reflexivity|]; split; [reflexivity|];
  split; [let v := fresh "v" in let Hv := fresh "Hv" in
          intros v Hv; first [discriminate Hv | injection Hv as <-; assumption]|];
  split; [apply members_In; eexists; split; [apply in_or_app; right; left; reflexivity
                                             | split; reflexivity]|];
  split; [let cl := fresh "cl" in let Hcl := fresh "Hcl" in
          intros cl Hcl;
          first [left; exact Hcl
                | apply in_app_or in Hcl as [Hcl|[<-|[]]];
                  [left; exact Hcl
                  | right; eexists; split; [apply in_or_app; right; left; reflexivity
                                           | reflexivity]]]|];
  split; [let cl := fresh "cl" in let Hcl := fresh "Hcl" in
          intros cl Hcl; first [exact Hcl | apply in_or_app; left; exact Hcl]|];
  reflexivity.

Lemma ingest_tx_stores embed trgm cosd input now st :
  tx_post (ingest_tx embed trgm cosd input now) st
    (fun r st' =>
       exists emb c matched sim,
         r = Ingested (next_id st) c matched sim /\
         messages st' = (messages st ++ [stored_message input now (next_id st) emb])%list /\
         (forall v, emb = Some v -> embed (in_text input) = Some v) /\
         In (next_id st) (members st' c) /\
         (forall cl, In cl (clusters st') -> In cl (clusters st) \/
            exists cm, In cm (cluster_messages st') /\ cm_cluster_id cm = c_id cl) /\
         (forall cl, In cl (clusters st) -> In cl (clusters st')) /\
         response_templates st' = response_templates st).
Proof.
  unfold ingest_tx. cbv zeta.
  destruct (in_isPaidDm input) as [[|]|] eqn:Hp.
  all: wp.
  all: close_stores.
Qed.

Lemma op_step_preserves_by_tx (P : Store -> Prop) embed trgm cosd :
  (forall input now, tx_preserves P (ingest_tx embed trgm cosd input now)) ->
  (forall id txt now, tx_preserves P (action_tx id txt now)) ->
  (forall c m now, tx_preserves P (remove_tx c m now)) ->
  forall st st', P st -> op_step embed trgm cosd st st' -> P st'.
Proof.
  intros Hi Ha Hrm st st' HP Hs. destruct Hs as [st input now | st id txt chs now | st c m now].
  - unfold ingest_post, ingestMessage.
    destruct (negb (needsResponse (in_text input))); [exact HP|].
    pose proof (run_tx_preserves P (ingest_tx embed trgm cosd input now) st (Hi input now) HP) as H.
    destruct (run_tx (ingest_tx embed trgm cosd input now) st) as [[log s1] r]. exact H.
  - unfold actionCluster. destruct chs; [exact HP|].
    pose proof (run_tx_preserves P (action_tx id txt now) st (Ha id txt now) HP) as H.
    destruct (run_tx (action_tx id txt now) st) as [[log s1] [e|[]]]; exact H.
  - unfold removeClusterMessage.
    pose proof (run_tx_preserves P (remove_tx c m now) st (Hrm c m now) HP) as H.
    destruct (run_tx (remove_tx c m now) st) as [[log s1] r]. exact H.
Qed.

Lemma none_replied_empty : none_replied empty_store.
Proof. intros m []. Qed.

Lemma none_replied_step embed trgm cosd (st st' : Store) :
  none_replied st -> op_step embed trgm cosd st st' -> none_replied st'.
Proof.
  apply op_step_preserves_by_tx.
  - intros input now st1 log r st2 HP H.
    destruct (ingest_tx_stores embed trgm cosd input now st1 log r st2 H)
      as (emb & c0 & mt & sm & _ & Hm & _).
    intros m Hin. rewrite Hm in Hin. apply in_app_or in Hin as [Hin|[<-|[]]];
      [exact (HP m Hin) | reflexivity].
  - intros id txt now. apply action_tx_preserves; unfold none_replied; cbn; auto.
    intros st1 c H m Hm. apply filter_In in Hm as [Hm _]. exact (H m Hm).
  - intros c m now. apply remove_tx_preserves; unfold none_replied; cbn; auto.
Qed.

Lemma reachable_none_replied embed trgm cosd (st : Store) :
  reachable embed trgm cosd st -> none_replied st.
Proof.
  intro Hr. refine (steps_preserve _ embed trgm cosd _ _ _ Hr none_replied_empty).
  intros a b Ha Hs. exact (none_replied_step embed trgm cosd a b Ha Hs).
Qed.







(** X14: in a reachable store, no message has [replied_at] set. *)
Theorem reachable_no_message_replied {embed trgm cosd} (st : Store)
    (Hr : reachable embed trgm cosd st) :
  forall m, In m (messages st) -> m_replied_at m = None.
Proof. exact (reachable_none_replied embed trgm cosd st Hr). Qed.

Lemma reachable_no_message_replied_witness :
  Forall (fun m => m_replied_at m = None) (messages lex_2).
Proof. apply Forall_forall. exact (reachable_no_message_replied lex_2 reachable_lex_2). Defined.

Lemma ingestMessage_committed embed trgm cosd st input now log st' r :
  ingestMessage embed trgm cosd st input now = (log, st', inr r) ->
  (st' = st /\ r = Skipped "no_response_needed") \/
  (needsResponse (in_text input) = true /\
   ingest_tx embed trgm cosd input now st = (log, inr (r, st'))).
Proof.
  unfold ingestMessage. destruct (needsResponse (in_text input)); cbn.
  - unfold run_tx. destruct (ingest_tx embed trgm cosd input now st) as [l [e|[a s]]].
    + discriminate.
    + intro H. injection H as -> -> ->. right. split; reflexivity.
  - intro H. injection H as _ -> <-. left. split; reflexivity.
Qed.

(** X15: a successful ingest returns the next id, appends exactly one message row built from the input (with the provider's embedding, if any, and with an empty or missing channelCid, visitorUserId or visitorUsername stored as NULL), makes it a member of the returned cluster, keeps every old cluster and leaves the templates unchanged. *)
Theorem ingestMessage_stores {embed trgm cosd} st input now log st' id c matched sim
    (H : ingestMessage embed trgm cosd st input now = (log, st', inr (Ingested id c matched sim))) :
  id = next_id st /\
  (exists emb, messages st' = (messages st ++ [stored_message input now id emb])%list /\
               (forall v, emb = Some v -> embed (in_text input) = Some v)) /\
  In id (members st' c) /\
  (forall cl, In cl (clusters st) -> In cl (clusters st')) /\
  response_templates st' = response_templates st.
Proof.
  apply ingestMessage_committed in H as [[_ E]|[_ H]]; [discriminate E|].
  destruct (ingest_tx_stores embed trgm cosd input now st _ _ _ H)
    as (emb & c0 & mt & sm & E & Hm & He & Hin & _ & Hkeep & Ht).
  injection E as -> -> -> ->.
  split; [reflexivity|]. split; [exists emb; split; assumption|].
  split; [exact Hin|]. split; assumption.
Qed.

Lemma ingestMessage_stores_witness :
  ingestMessage embed_codes trgm_exact cosd_exact lex_1
    (free_input "ext-2" QUESTION "channel-2" 20) 101
  = (["How much do you charge?"], lex_2, inr (Ingested 2 1 (Some 0) (Some 1%Q))) /\
  In 2 (members lex_2 1).
Proof.
  assert (H : ingestMessage embed_codes trgm_exact cosd_exact lex_1
    (free_input "ext-2" QUESTION "channel-2" 20) 101
    = (["How much do you charge?"], lex_2, inr (Ingested 2 1 (Some 0) (Some 1%Q))))
    by (vm_compute; reflexivity).
  split; [exact H|].
  exact (proj1 (proj2 (proj2 (ingestMessage_stores _ _ _ _ _ _ _ _ _ H)))).
Defined.

Lemma trigram_query_match trgm st creator text row :
  trigram_query trgm st creator text = Some row ->
  exists x, In x (messages st) /\ m_id x = tm_id row /\ m_creator_id x = creator /\
            m_replied_at x = None /\ m_is_paid_dm x = false /\
            tm_trgm_similarity row = trgm (m_text x) text /\
            (TRIGRAM_THRESHOLD < tm_trgm_similarity row)%Q.
Proof.
  intro H. apply first_best_In in H. unfold trigram_candidates in H.
  apply in_map_iff in H as (x & <- & Hx). apply filter_In in Hx as [Hx Hf].
  rewrite !andb_true_iff in Hf. destruct Hf as [[[[Hc Hr] Hp] Ht] _].
  exists x. split; [exact Hx|]. split; [reflexivity|].
  split; [apply String.eqb_eq; exact Hc|].
  split; [destruct (m_replied_at x); [discriminate Hr|reflexivity]|].
  split; [destruct (m_is_paid_dm x); [discriminate Hp|reflexivity]|].
  split; [reflexivity|]. apply Qltb_true. exact Ht.
Qed.

Lemma vector_query_match cosd st creator e self row :
  vector_query cosd st creator e self = Some row ->
  exists x em, In x (messages st) /\ m_id x = mr_id row /\ m_id x <> self /\
            m_creator_id x = creator /\
            m_replied_at x = None /\ m_is_paid_dm x = false /\
            m_embedding x = Some em /\ mr_distance row = cosd em e.
Proof.
  intro H. apply first_best_In in H. unfold vector_candidates in H.
  apply in_flat_map in H as (x & Hx & Hr).
  destruct (m_embedding x) as [em|] eqn:Em; [|destruct Hr].
  destruct (String.eqb (m_creator_id x) creator && negb (is_some (m_replied_at x))
            && negb (m_is_paid_dm x) && negb (m_id x =? self)
            && cluster_open_or_null st (m_id x)) eqn:Hf; [|destruct Hr].
  destruct Hr as [<-|[]].
  rewrite !andb_true_iff in Hf. destruct Hf as [[[[Hc Hr] Hp] Hs] _].
  exists x, em. split; [exact Hx|]. split; [reflexivity|].
  split; [apply negb_true_iff, Nat.eqb_neq in Hs; exact Hs|].
  split; [apply String.eqb_eq; exact Hc|].
  split; [destruct (m_replied_at x); [discriminate Hr|reflexivity]|].
  split; [destruct (m_is_paid_dm x); [discriminate Hp|reflexivity]|].
  split; [exact Em|reflexivity].
Qed.


Ltac close_match :=
  split; [let E := fresh in intro E; first [split; reflexivity | discriminate E]|];
  first
  [ exact I
  | match goal with
    | Hv : vector_query _ _ _ _ _ = Some ?row, Hq : Qle_bool _ _ = true,
      He : ?f (in_text _) = Some _ |- _ =>
        let x := fresh "x" in let em := fresh "em" in let Hx := fresh in
        let Hid := fresh in let Hself := fresh in let Hc := fresh in
        let Hr := fresh in let Hpd := fresh in let Hem := fresh in let Hd := fresh in
        destruct (vector_query_match _ _ _ _ _ _ Hv)
          as (x & em & Hx & Hid & Hself & Hc & Hr & Hpd & Hem & Hd);
        exists x; cbn in Hx; apply in_app_or in Hx as [Hx|[Hx|[]]];
        [ split; [exact Hx|]; split; [exact Hid|]; split; [exact Hc|];
          split; [exact Hr|]; split; [exact Hpd|]; right; do 2 eexists;
          split; [exact He|]; split; [exact Hem|];
          split; [unfold mr_similarity; rewrite Hd; reflexivity|];
          apply Qle_bool_iff; exact Hq
        | subst x; cbn in Hself; exfalso; exact (Hself eq_refl) ]
    | Ht : trigram_query _ _ _ _ = Some ?row |- _ =>
        let x := fresh "x" in let Hx := fresh in
        let Hid := fresh in let Hc := fresh in
        let Hr := fresh in let Hpd := fresh in let Hs := fresh in let Hlt := fresh in
        destruct (trigram_query_match _ _ _ _ _ Ht)
          as (x & Hx & Hid & Hc & Hr & Hpd & Hs & Hlt);
        exists x; split; [exact Hx|]; split; [exact Hid|]; split; [exact Hc|];
        split; [exact Hr|]; split; [exact Hpd|]; left; split; [exact Hs | exact Hlt]
    end ].

Lemma ingest_tx_match embed trgm cosd input now st :
  tx_post (ingest_tx embed trgm cosd input now) st
    (fun r _ => match r with
                | Ingested _ _ matched sim =>
                    (in_isPaidDm input = Some true -> matched = None /\ sim = None) /\
                    reported_match embed trgm cosd st input matched sim
                | Skipped _ => False
                end).
Proof.
  unfold ingest_tx. cbv zeta. destruct (in_isPaidDm input) as [[|]|] eqn:Hp. all: wp.
  all: cbn -[cluster_of trigram_query vector_query members].
  all: close_match.
Qed.

(** X16: a successful ingest reports a matched message and a similarity together or neither; a reported match is a stored, unreplied, non-paid message of the same creator, with trigram similarity above 0.85 or cosine similarity of at least 0.9; a paid message reports no match. *)
Theorem ingestMessage_reports_match {embed trgm cosd} st input now log st' id c matched sim
    (H : ingestMessage embed trgm cosd st input now = (log, st', inr (Ingested id c matched sim))) :
  (in_isPaidDm input = Some true -> matched = None /\ sim = None) /\
  reported_match embed trgm cosd st input matched sim.
Proof.
  apply ingestMessage_committed in H as [[_ E]|[_ H]]; [discriminate E|].
  exact (ingest_tx_match embed trgm cosd input now st _ _ _ H).
Qed.

Lemma ingestMessage_reports_match_witness :
  let run := ingestMessage embed_codes trgm_near cosd_near res_2 res_input 102 in
  run = (fst (fst run), snd (fst run), inr (Ingested 2 3 (Some 0) (Some (9 # 10)%Q))) /\
  reported_match embed_codes trgm_near cosd_near res_2 res_input (Some 0) (Some (9 # 10)%Q).
Proof.
  intro run.
  assert (H : run = (fst (fst run), snd (fst run), inr (Ingested 2 3 (Some 0) (Some (9 # 10)%Q))))
    by (vm_compute; reflexivity).
  split; [exact H|]. exact (proj2 (ingestMessage_reports_match _ _ _ _ _ _ _ _ _ H)).
Defined.

Ltac bool_bounds :=
  repeat match goal with
  | H : (_ && _) = true |- _ => apply andb_true_iff in H as [? ?]
  | H : (_ && _) = false |- _ => apply andb_false_iff in H as [? | ?]
  | H : (_ <=? _)%Z = true |- _ => apply Z.leb_le in H
  | H : (_ <=? _)%Z = false |- _ => apply Z.leb_gt in H
  | H : (_ <? _)%Z = true |- _ => apply Z.ltb_lt in H
  | H : (_ <? _)%Z = false |- _ => apply Z.ltb_ge in H
  | H : (_ =? _)%Z = true |- _ => apply Z.eqb_eq in H
  | H : (_ =? _)%Z = false |- _ => apply Z.eqb_neq in H
  | H : is_cont _ = true |- _ => unfold is_cont in H
  | H : (if ?c then _ else _) = _ |- _ =>
      let E := fresh "E" in destruct c eqn:E; cbn beta iota in H
  end.

Lemma utf8_seq2_big (b0 b1 c : Z) :
  (194 <= b0)%Z -> utf8_seq2 b0 b1 = Some c -> (128 <= c)%Z.
Proof.
  unfold utf8_seq2. intros H0 H. destruct (is_cont b1) eqn:E1; [|discriminate].
  injection H as <-. bool_bounds. lia.
Qed.

Lemma utf8_seq3_big (b0 b1 b2 c : Z) :
  (224 <= b0)%Z -> utf8_seq3 b0 b1 b2 = Some c -> (2048 <= c)%Z.
Proof.
  unfold utf8_seq3. intros H0 H.
  match type of H with (if ?x then _ else _) = _ => destruct x eqn:E end;
    [|discriminate].
  injection H as <-. bool_bounds; lia.
Qed.

Lemma utf8_seq4_big (b0 b1 b2 b3 c : Z) :
  (240 <= b0)%Z -> utf8_seq4 b0 b1 b2 b3 = Some c -> (65536 <= c)%Z.
Proof.
  unfold utf8_seq4. intros H0 H.
  match type of H with (if ?x then _ else _) = _ => destruct x eqn:E end;
    [|discriminate].
  injection H as <-. bool_bounds; lia.
Qed.

Lemma utf8_seq3_none1 (b0 b1 b2 : Z) : is_cont b1 = false -> utf8_seq3 b0 b1 b2 = None.
Proof. unfold utf8_seq3. intro H. rewrite H. reflexivity. Qed.

Lemma utf8_seq3_none2 (b0 b1 b2 : Z) : is_cont b2 = false -> utf8_seq3 b0 b1 b2 = None.
Proof. unfold utf8_seq3. intro H. rewrite H, andb_false_r. reflexivity. Qed.

Lemma utf8_seq4_none1 (b0 b1 b2 b3 : Z) :
  is_cont b1 = false -> utf8_seq4 b0 b1 b2 b3 = None.
Proof. unfold utf8_seq4. intro H. rewrite H. reflexivity. Qed.

Lemma utf8_seq4_none2 (b0 b1 b2 b3 : Z) :
  is_cont b2 = false -> utf8_seq4 b0 b1 b2 b3 = None.
Proof. unfold utf8_seq4. intro H. rewrite H, andb_false_r. reflexivity. Qed.

Lemma utf8_seq4_none3 (b0 b1 b2 b3 : Z) :
  is_cont b3 = false -> utf8_seq4 b0 b1 b2 b3 = None.
Proof. unfold utf8_seq4. intro H. rewrite H, andb_false_r. reflexivity. Qed.

Lemma to_lower_cp_big (c : Z) : (91 <= c)%Z -> to_lower_cp c = c.
Proof.
  intro H. unfold to_lower_cp.
  destruct (65 <=? c)%Z eqn:E1, (c <=? 90)%Z eqn:E2; cbn; bool_bounds; lia.
Qed.

Lemma to_lower_cp_cases (c : Z) :
  to_lower_cp c = c \/ ((65 <= c <= 90)%Z /\ to_lower_cp c = (c + 32)%Z).
Proof.
  unfold to_lower_cp.
  destruct (65 <=? c)%Z eqn:E1, (c <=? 90)%Z eqn:E2; cbn; bool_bounds; auto.
Qed.

Lemma is_cont_lower (b : Z) : is_cont (to_lower_cp b) = is_cont b.
Proof.
  destruct (to_lower_cp_cases b) as [-> | [Hb ->]]; [reflexivity|].
  unfold is_cont. destruct (Z.leb_spec 128 b), (Z.leb_spec 128 (b + 32)); cbn; lia.
Qed.

(** A byte that may change under lower-casing is no continuation byte. *)
Lemma to_lower_cp_cont (b : Z) : is_cont b = true -> to_lower_cp b = b.
Proof. intro H. bool_bounds. apply to_lower_cp_big. lia. Qed.

Ltac cont_cases b :=
  let E := fresh "C" in
  destruct (is_cont b) eqn:E;
  [rewrite ?(to_lower_cp_cont b E) | ].

Lemma utf8_seq2_lower (b0 b1 : Z) : utf8_seq2 b0 (to_lower_cp b1) = utf8_seq2 b0 b1.
Proof.
  unfold utf8_seq2. rewrite is_cont_lower. cont_cases b1; reflexivity.
Qed.

Lemma utf8_seq3_lower (b0 b1 b2 : Z) :
  utf8_seq3 b0 (to_lower_cp b1) (to_lower_cp b2) = utf8_seq3 b0 b1 b2.
Proof.
  cont_cases b1; [cont_cases b2|].
  - reflexivity.
  - rewrite !utf8_seq3_none2; [reflexivity | assumption | rewrite is_cont_lower; assumption].
  - rewrite !utf8_seq3_none1; [reflexivity | assumption | rewrite is_cont_lower; assumption].
Qed.

Lemma utf8_seq4_lower (b0 b1 b2 b3 : Z) :
  utf8_seq4 b0 (to_lower_cp b1) (to_lower_cp b2) (to_lower_cp b3) = utf8_seq4 b0 b1 b2 b3.
Proof.
  cont_cases b1; [cont_cases b2; [cont_cases b3|]|].
  - reflexivity.
  - rewrite !utf8_seq4_none3; [reflexivity | assumption | rewrite is_cont_lower; assumption].
  - rewrite !utf8_seq4_none2; [reflexivity | assumption | rewrite is_cont_lower; assumption].
  - rewrite !utf8_seq4_none1; [reflexivity | assumption | rewrite is_cont_lower; assumption].
Qed.

Lemma ltb_128_lower (b : Z) : (to_lower_cp b <? 128)%Z = (b <? 128)%Z.
Proof.
  destruct (to_lower_cp_cases b) as [-> | [Hb ->]]; [reflexivity|].
  destruct (Z.ltb_spec b 128), (Z.ltb_spec (b + 32) 128); lia.
Qed.

Lemma utf8_decode_lower_aux (n : nat) (l : list Z) :
  List.length l <= n ->
  utf8_decode (map to_lower_cp l) = map to_lower_cp (utf8_decode l).
Proof.
  revert l. induction n as [|n IH]; intros [|b0 r0] Hn; cbn in Hn;
    try lia; try reflexivity.
  assert (IHr : forall r, List.length r <= List.length r0 ->
            utf8_decode (map to_lower_cp r) = map to_lower_cp (utf8_decode r))
    by (intros r Hr; apply IH; lia).
  assert (HF : to_lower_cp REPLACEMENT_CHAR = REPLACEMENT_CHAR) by reflexivity.
  cbn [map utf8_decode]. rewrite ltb_128_lower.
  destruct (b0 <? 128)%Z eqn:E0.
  { cbn [map]. rewrite IHr by lia. reflexivity. }
  rewrite (to_lower_cp_big b0) by (bool_bounds; lia).
  destruct ((194 <=? b0)%Z && (b0 <=? 223)%Z) eqn:L2; [|
  destruct ((224 <=? b0)%Z && (b0 <=? 239)%Z) eqn:L3; [|
  destruct ((240 <=? b0)%Z && (b0 <=? 244)%Z) eqn:L4]].
  - destruct r0 as [|b1 r1]; cbn [map]; [reflexivity|].
    rewrite utf8_seq2_lower. destruct (utf8_seq2 b0 b1) as [c|] eqn:S; cbn [map].
    + rewrite (to_lower_cp_big c) by (bool_bounds; pose proof (utf8_seq2_big _ _ _ H S); lia).
      rewrite IHr by (cbn; lia). reflexivity.
    + rewrite HF. change (to_lower_cp b1 :: map to_lower_cp r1) with (map to_lower_cp (b1 :: r1)).
      rewrite IHr by lia. reflexivity.
  - destruct r0 as [|b1 [|b2 r2]]; cbn [map]; rewrite ?HF; [reflexivity| |].
    { change [to_lower_cp b1] with (map to_lower_cp [b1]). rewrite IHr by lia. reflexivity. }
    rewrite utf8_seq3_lower. destruct (utf8_seq3 b0 b1 b2) as [c|] eqn:S; cbn [map].
    + rewrite (to_lower_cp_big c) by (bool_bounds; pose proof (utf8_seq3_big _ _ _ _ H S); lia).
      rewrite IHr by (cbn; lia). reflexivity.
    + rewrite HF.
      change (to_lower_cp b1 :: to_lower_cp b2 :: map to_lower_cp r2)
        with (map to_lower_cp (b1 :: b2 :: r2)).
      rewrite IHr by lia. reflexivity.
  - destruct r0 as [|b1 [|b2 [|b3 r3]]]; cbn [map]; rewrite ?HF; [reflexivity| | |].
    + change [to_lower_cp b1] with (map to_lower_cp [b1]). rewrite IHr by lia. reflexivity.
    + change [to_lower_cp b1; to_lower_cp b2] with (map to_lower_cp [b1; b2]).
      rewrite IHr by lia. reflexivity.
    + rewrite utf8_seq4_lower. destruct (utf8_seq4 b0 b1 b2 b3) as [c|] eqn:S; cbn [map].
      * rewrite (to_lower_cp_big c) by (bool_bounds; pose proof (utf8_seq4_big _ _ _ _ _ H S); lia).
        rewrite IHr by (cbn; lia). reflexivity.
      * rewrite HF.
        change (to_lower_cp b1 :: to_lower_cp b2 :: to_lower_cp b3 :: map to_lower_cp r3)
          with (map to_lower_cp (b1 :: b2 :: b3 :: r3)).
        rewrite IHr by lia. reflexivity.
  - cbn [map]. rewrite HF. rewrite IHr by lia. reflexivity.
Qed.

Lemma utf8_decode_lower (l : list Z) :
  utf8_decode (map to_lower_cp l) = map to_lower_cp (utf8_decode l).
Proof. exact (utf8_decode_lower_aux (List.length l) l (le_n _)). Qed.

Lemma bytes_of_lower (s : string) : bytes_of (lower s) = map to_lower_cp (bytes_of s).
Proof.
  unfold bytes_of, lower. rewrite list_ascii_of_string_of_list_ascii, !map_map.
  apply map_ext. intro c. destruct c as [[] [] [] [] [] [] [] []]; reflexivity.
Qed.

Lemma is_js_space_range (c : Z) : is_js_space c = true -> (c <= 32 \/ 160 <= c)%Z.
Proof.
  unfold is_js_space. intro H. apply orb_true_iff in H as [H | H].
  - apply existsb_exists in H as [x [Hx Hc]]. apply Z.eqb_eq in Hc. subst x.
    cbn in Hx. repeat destruct Hx as [<- | Hx]; lia.
  - bool_bounds. lia.
Qed.

Lemma EMOJI_RANGES_off_letters :
  forallb (fun r => (snd r <=? 57)%Z || (169 <=? fst r)%Z) EMOJI_RANGES = true.
Proof. vm_compute. reflexivity. Qed.

Lemma is_emoji_range (c : Z) : is_emoji c = true -> (c <= 57 \/ 169 <= c)%Z.
Proof.
  unfold is_emoji. intro H. apply existsb_exists in H as [r [Hr Hc]].
  pose proof (proj1 (forallb_forall _ _) EMOJI_RANGES_off_letters r Hr) as Hb.
  cbn beta in Hb. apply orb_true_iff in Hb. destruct Hb; bool_bounds; lia.
Qed.

Lemma is_js_space_lower (c : Z) : is_js_space (to_lower_cp c) = is_js_space c.
Proof.
  destruct (to_lower_cp_cases c) as [-> | [Hc ->]]; [reflexivity|].
  destruct (is_js_space c) eqn:E1; [apply is_js_space_range in E1; lia|].
  destruct (is_js_space (c + 32)) eqn:E2; [apply is_js_space_range in E2; lia|].
  reflexivity.
Qed.

Lemma is_emoji_lower (c : Z) : is_emoji (to_lower_cp c) = is_emoji c.
Proof.
  destruct (to_lower_cp_cases c) as [-> | [Hc ->]]; [reflexivity|].
  destruct (is_emoji c) eqn:E1; [apply is_emoji_range in E1; lia|].
  destruct (is_emoji (c + 32)) eqn:E2; [apply is_emoji_range in E2; lia|].
  reflexivity.
Qed.

Lemma to_lower_cp_idem (c : Z) : to_lower_cp (to_lower_cp c) = to_lower_cp c.
Proof.
  destruct (to_lower_cp_cases c) as [H | [Hc ->]]; [rewrite H; exact H|].
  apply to_lower_cp_big. lia.
Qed.

Lemma drop_spaces_map_lower (l : list Z) :
  drop_spaces (map to_lower_cp l) = map to_lower_cp (drop_spaces l).
Proof.
  induction l as [|c r IH]; cbn; [reflexivity|].
  rewrite is_js_space_lower. destruct (is_js_space c); [exact IH | reflexivity].
Qed.

Lemma trimmed_cps_lower (s : string) :
  trimmed_cps (lower s) = map to_lower_cp (trimmed_cps s).
Proof.
  unfold trimmed_cps, trim_cps. rewrite bytes_of_lower, utf8_decode_lower.
  rewrite drop_spaces_map_lower, <- map_rev, drop_spaces_map_lower, <- map_rev.
  reflexivity.
Qed.

Lemma utf16_length_cons (c : Z) (r : list Z) :
  utf16_length (c :: r) =
  if (0x10000 <=? c)%Z then S (S (utf16_length r)) else S (utf16_length r).
Proof. reflexivity. Qed.

Lemma utf16_length_lower (l : list Z) : utf16_length (map to_lower_cp l) = utf16_length l.
Proof.
  induction l as [|c r IH]; [reflexivity|]. cbn [map]. rewrite !utf16_length_cons, IH. destruct (to_lower_cp_cases c) as [-> | [Hc ->]]; [reflexivity|].
  destruct (Z.leb_spec 65536 c), (Z.leb_spec 65536 (c + 32)); lia.
Qed.

Lemma ack_pattern_lower (words : list string) (l : list Z) :
  ack_pattern words (map to_lower_cp l) = ack_pattern words l.
Proof.
  unfold ack_pattern. rewrite map_map.
  rewrite (map_ext _ _ to_lower_cp_idem). reflexivity.
Qed.

Lemma emoji_only_lower (l : list Z) : emoji_only (map to_lower_cp l) = emoji_only l.
Proof.
  unfold emoji_only. f_equal.
  - destruct l; reflexivity.
  - induction l as [|c r IH]; cbn [map forallb]; [reflexivity|].
    rewrite is_emoji_lower, is_js_space_lower, IH. reflexivity.
Qed.

(** X18: [needsResponse] does not depend on the case of ASCII letters:
    lower-casing the ASCII letters of the text leaves the UTF-16 length of the
    trimmed text, the case-insensitive acknowledgement patterns and the
    emoji-only test unchanged. *)
Theorem needsResponse_lower (text : string) :
  needsResponse (lower text) = needsResponse text.
Proof.
  unfold needsResponse. rewrite trimmed_cps_lower, utf16_length_lower.
  destruct (utf16_length (trimmed_cps text) <? MIN_RESPONSE_LENGTH); [reflexivity|].
  cbn [existsb NO_RESPONSE_PATTERNS]. rewrite !ack_pattern_lower, emoji_only_lower.
  reflexivity.
Qed.

Lemma utf8_decode_cons (b0 : Z) (r : list Z) :
  utf8_decode (b0 :: r) =
    if (b0 <? 128)%Z then b0 :: utf8_decode r else
     if (194 <=? b0)%Z && (b0 <=? 223)%Z then
        match r with
        | b1 :: r1 =>
            match utf8_seq2 b0 b1 with
            | Some c => c :: utf8_decode r1
            | None => REPLACEMENT_CHAR :: utf8_decode r
            end
        | [] => REPLACEMENT_CHAR :: utf8_decode r
        end
      else if (224 <=? b0)%Z && (b0 <=? 239)%Z then
        match r with
        | b1 :: b2 :: r2 =>
            match utf8_seq3 b0 b1 b2 with
            | Some c => c :: utf8_decode r2
            | None => REPLACEMENT_CHAR :: utf8_decode r
            end
        | _ => REPLACEMENT_CHAR :: utf8_decode r
        end
      else if (240 <=? b0)%Z && (b0 <=? 244)%Z then
        match r with
        | b1 :: b2 :: b3 :: r3 =>
            match utf8_seq4 b0 b1 b2 b3 with
            | Some c => c :: utf8_decode r3
            | None => REPLACEMENT_CHAR :: utf8_decode r
            end
        | _ => REPLACEMENT_CHAR :: utf8_decode r
        end
      else REPLACEMENT_CHAR :: utf8_decode r.
Proof. reflexivity. Qed.

Ltac lead_conds :=
  repeat match goal with
  | |- context [if ?c then _ else _] =>
      match c with
      | context [utf8_seq2] => fail 1
      | context [utf8_seq3] => fail 1
      | context [utf8_seq4] => fail 1
      | _ => destruct c eqn:?; bool_bounds; try lia
      end
  end.

Lemma utf8_decode_lead2 (b0 b1 : Z) (r : list Z) :
  (194 <= b0 <= 223)%Z ->
  utf8_decode (b0 :: b1 :: r) =
    match utf8_seq2 b0 b1 with
    | Some c => c :: utf8_decode r
    | None => REPLACEMENT_CHAR :: utf8_decode (b1 :: r)
    end.
Proof. intro H. rewrite utf8_decode_cons. lead_conds; reflexivity. Qed.

Lemma utf8_decode_lead3 (b0 b1 b2 : Z) (r : list Z) :
  (224 <= b0 <= 239)%Z ->
  utf8_decode (b0 :: b1 :: b2 :: r) =
    match utf8_seq3 b0 b1 b2 with
    | Some c => c :: utf8_decode r
    | None => REPLACEMENT_CHAR :: utf8_decode (b1 :: b2 :: r)
    end.
Proof. intro H. rewrite utf8_decode_cons. lead_conds; reflexivity. Qed.

Lemma utf8_decode_lead4 (b0 b1 b2 b3 : Z) (r : list Z) :
  (240 <= b0 <= 244)%Z ->
  utf8_decode (b0 :: b1 :: b2 :: b3 :: r) =
    match utf8_seq4 b0 b1 b2 b3 with
    | Some c => c :: utf8_decode r
    | None => REPLACEMENT_CHAR :: utf8_decode (b1 :: b2 :: b3 :: r)
    end.
Proof. intro H. rewrite utf8_decode_cons. lead_conds; reflexivity. Qed.

Lemma utf8_decode_ascii (b0 : Z) (r : list Z) :
  (b0 < 128)%Z -> utf8_decode (b0 :: r) = b0 :: utf8_decode r.
Proof. intro H. rewrite utf8_decode_cons. lead_conds; reflexivity. Qed.

Lemma utf8_decode_encode_cp (c : Z) (m : list Z) :
  is_scalar c = true -> utf8_decode (utf8_encode_cp c ++ m) = c :: utf8_decode m.
Proof.
  unfold is_scalar. intro H. apply andb_true_iff in H as [H Hs].
  apply andb_true_iff in H as [H0 H1]. apply Z.leb_le in H0, H1.
  assert (Hs' : (c < 0xD800 \/ 0xDFFF < c)%Z).
  { destruct (Z.leb_spec 0xD800 c), (Z.leb_spec c 0xDFFF); cbn in Hs;
      try discriminate; lia. }
  clear Hs.
  unfold utf8_encode_cp.
  assert (E2 : (c / 4096 = c / 64 / 64)%Z) by (rewrite Z.div_div by lia; reflexivity).
  assert (E3 : (c / 262144 = c / 4096 / 64)%Z) by (rewrite Z.div_div by lia; reflexivity).
  pose proof (Z.div_mod c 64 ltac:(lia)) as D1.
  pose proof (Z.mod_pos_bound c 64 ltac:(lia)) as M1.
  pose proof (Z.div_mod (c / 64) 64 ltac:(lia)) as D2.
  pose proof (Z.mod_pos_bound (c / 64) 64 ltac:(lia)) as M2.
  pose proof (Z.div_mod (c / 4096) 64 ltac:(lia)) as D3.
  pose proof (Z.mod_pos_bound (c / 4096) 64 ltac:(lia)) as M3.
  rewrite <- E2 in D2. rewrite <- E3 in D3.
  set (q1 := (c / 64)%Z) in *. set (r1 := (c mod 64)%Z) in *.
  set (q2 := (c / 4096)%Z) in *. set (r2 := (q1 mod 64)%Z) in *.
  set (q3 := (c / 262144)%Z) in *. set (r3 := (q2 mod 64)%Z) in *.
  clearbody q1 r1 q2 r2 q3 r3. clear E2 E3.
  destruct (Z.ltb_spec c 0x80); [cbn [app]; apply utf8_decode_ascii; lia|].
  destruct (Z.ltb_spec c 0x800); [|destruct (Z.ltb_spec c 0x10000)]; cbn [app].
  - rewrite utf8_decode_lead2 by lia. unfold utf8_seq2, is_cont. lead_conds.
    f_equal. lia.
  - rewrite utf8_decode_lead3 by lia. unfold utf8_seq3, is_cont. lead_conds.
    all: f_equal; lia.
  - rewrite utf8_decode_lead4 by lia. unfold utf8_seq4, is_cont. lead_conds.
    all: f_equal; lia.
Qed.

Lemma utf8_encode_cons (c : Z) (r : list Z) :
  utf8_encode (c :: r) = (utf8_encode_cp c ++ utf8_encode r)%list.
Proof. reflexivity. Qed.

Lemma utf8_decode_encode (l : list Z) :
  forallb is_scalar l = true -> utf8_decode (utf8_encode l) = l.
Proof.
  induction l as [|c r IH]; [reflexivity|]. cbn [forallb].
  intro H. apply andb_true_iff in H as [Hc Hr].
  rewrite utf8_encode_cons, utf8_decode_encode_cp by exact Hc. rewrite IH by exact Hr.
  reflexivity.
Qed.

Lemma utf8_encode_cp_bytes (c : Z) :
  is_scalar c = true -> Forall (fun b => (0 <= b < 256)%Z) (utf8_encode_cp c).
Proof.
  unfold is_scalar. intro H. apply andb_true_iff in H as [H _].
  apply andb_true_iff in H as [H0 H1]. apply Z.leb_le in H0, H1.
  unfold utf8_encode_cp.
  pose proof (Z.mod_pos_bound c 64 ltac:(lia)).
  pose proof (Z.mod_pos_bound (c / 64) 64 ltac:(lia)).
  pose proof (Z.mod_pos_bound (c / 4096) 64 ltac:(lia)).
  destruct (Z.ltb_spec c 0x80); [repeat constructor; lia|].
  destruct (Z.ltb_spec c 0x800); [|destruct (Z.ltb_spec c 0x10000)];
    repeat constructor; try lia.
  all: Z.div_mod_to_equations; lia.
Qed.

Lemma utf8_encode_bytes (l : list Z) :
  forallb is_scalar l = true -> Forall (fun b => (0 <= b < 256)%Z) (utf8_encode l).
Proof.
  induction l as [|c r IH]; [constructor|]. cbn [forallb].
  intro H. apply andb_true_iff in H as [Hc Hr].
  rewrite utf8_encode_cons. apply Forall_app.
  split; [exact (utf8_encode_cp_bytes c Hc) | exact (IH Hr)].
Qed.

Lemma bytes_of_string_of_bytes (l : list Z) :
  Forall (fun b => (0 <= b < 256)%Z) l -> bytes_of (string_of_bytes l) = l.
Proof.
  unfold bytes_of, string_of_bytes. rewrite list_ascii_of_string_of_list_ascii, map_map.
  induction 1 as [|b r Hb _ IH]; [reflexivity|]. cbn [map]. rewrite IH.
  rewrite nat_ascii_embedding by lia. rewrite Z2Nat.id by lia. reflexivity.
Qed.

Lemma trimmed_cps_js_string (l : list Z) :
  forallb is_scalar l = true -> trimmed_cps (js_string l) = trim_cps l.
Proof.
  intro H. unfold trimmed_cps, js_string.
  rewrite bytes_of_string_of_bytes by exact (utf8_encode_bytes l H).
  rewrite utf8_decode_encode by exact H. reflexivity.
Qed.

Lemma is_js_space_scalar (c : Z) : is_js_space c = true -> is_scalar c = true.
Proof.
  unfold is_js_space, is_scalar. intro H. apply orb_true_iff in H as [H | H].
  - apply existsb_exists in H as [x [Hx Hc]]. apply Z.eqb_eq in Hc. subst x.
    cbn in Hx. repeat destruct Hx as [<- | Hx]; try reflexivity. contradiction.
  - bool_bounds.
    rewrite (proj2 (Z.leb_le 0 c)), (proj2 (Z.leb_le c 0x10FFFF)), (proj2 (Z.leb_gt 0xD800 c))
      by lia.
    reflexivity.
Qed.

Lemma forallb_spaces_scalar (ws : list Z) :
  forallb is_js_space ws = true -> forallb is_scalar ws = true.
Proof.
  induction ws as [|c r IH]; [reflexivity|]. cbn [forallb].
  intro H. apply andb_true_iff in H as [Hc Hr].
  rewrite (is_js_space_scalar c Hc), (IH Hr). reflexivity.
Qed.

Lemma drop_spaces_all (ws : list Z) :
  forallb is_js_space ws = true -> drop_spaces ws = [].
Proof.
  induction ws as [|c r IH]; cbn; [reflexivity|].
  intro H. apply andb_true_iff in H as [Hc Hr]. rewrite Hc. exact (IH Hr).
Qed.

Lemma drop_spaces_prefix (ws l : list Z) :
  forallb is_js_space ws = true -> drop_spaces (ws ++ l) = drop_spaces l.
Proof.
  induction ws as [|c r IH]; cbn; [reflexivity|].
  intro H. apply andb_true_iff in H as [Hc Hr]. rewrite Hc. exact (IH Hr).
Qed.

Lemma drop_spaces_suffix (l ws : list Z) :
  forallb is_js_space ws = true ->
  drop_spaces (l ++ ws) = match drop_spaces l with [] => [] | d => (d ++ ws)%list end.
Proof.
  intro Hws. induction l as [|c r IH]; cbn.
  - exact (drop_spaces_all ws Hws).
  - destruct (is_js_space c); [exact IH | reflexivity].
Qed.

Lemma forallb_rev {A} (f : A -> bool) (l : list A) : forallb f (rev l) = forallb f l.
Proof.
  induction l as [|x r IH]; cbn; [reflexivity|].
  rewrite forallb_app, IH. cbn. rewrite andb_true_r. apply andb_comm.
Qed.

Lemma trim_cps_spaces (ws1 l ws2 : list Z) :
  forallb is_js_space ws1 = true -> forallb is_js_space ws2 = true ->
  trim_cps (ws1 ++ l ++ ws2) = trim_cps l.
Proof.
  intros H1 H2. unfold trim_cps.
  rewrite drop_spaces_prefix by exact H1.
  rewrite drop_spaces_suffix by exact H2.
  destruct (drop_spaces l) as [|c r]; [reflexivity|].
  rewrite rev_app_distr, drop_spaces_prefix by (rewrite forallb_rev; exact H2).
  reflexivity.
Qed.

(** X17: [needsResponse] does not depend on leading or trailing whitespace:
    adding ECMAScript [WhiteSpace] or [LineTerminator] code points around a
    string of Unicode scalar values leaves the result unchanged. *)
Theorem needsResponse_surrounding_space (ws1 cps ws2 : list Z)
    (H1 : forallb is_js_space ws1 = true) (H2 : forallb is_js_space ws2 = true)
    (Hc : forallb is_scalar cps = true) :
  needsResponse (js_string (ws1 ++ cps ++ ws2)) = needsResponse (js_string cps).
Proof.
  unfold needsResponse.
  rewrite !trimmed_cps_js_string, trim_cps_spaces by
    (rewrite ?forallb_app, ?Hc, ?(forallb_spaces_scalar _ H1), ?(forallb_spaces_scalar _ H2);
     auto).
  reflexivity.
Qed.

Lemma needsResponse_surrounding_space_witness :
  needsResponse (js_string ([0xA0; 0x2003] ++ bytes_of "Thanks!" ++ [0xFEFF; 0x3000; 0xA]))%Z
    = needsResponse (js_string (bytes_of "Thanks!")) /\
  needsResponse (js_string (bytes_of "Thanks!")) = false.
Proof.
  split; [apply needsResponse_surrounding_space; reflexivity | vm_compute; reflexivity].
Defined.

Lemma Qfloor_between (y : Q) :
  (-1999999 # 2 <= y)%Q -> (y <= 2000001 # 2)%Q ->
  (-1000000 <= Qfloor y <= 1000000)%Z.
Proof.
  intros H1 H2. apply Qfloor_resp_le in H1, H2.
  change (Qfloor (-1999999 # 2)) with (-1000000)%Z in H1.
  change (Qfloor (2000001 # 2)) with 1000000%Z in H2. lia.
Qed.

Lemma to_fixed6_bounds (x : Q) :
  (-1 <= x)%Q -> (x <= 1)%Q -> (-1000000 <= to_fixed6 x <= 1000000)%Z.
Proof.
  intros H1 H2. unfold to_fixed6. destruct (Qltb x 0).
  - assert (B : (-1000000 <= Qfloor (- x * (1000000 # 1) + (1 # 2)) <= 1000000)%Z)
      by (apply Qfloor_between; lra).
    lia.
  - apply Qfloor_between; lra.
Qed.

Lemma stub_value_bounds (hash : list Z) (i : nat) :
  hash <> [] -> Forall (fun b => (0 <= b <= 255)%Z) hash ->
  (-1000000 <= stub_value hash i <= 1000000)%Z.
Proof.
  intros Hne Hb. unfold stub_value.
  assert (Hlen : List.length hash <> 0) by (destruct hash; [contradiction|discriminate]).
  assert (Hbyte : forall k, (0 <= nth (k mod List.length hash) hash 0 <= 255)%Z).
  { intro k. rewrite Forall_forall in Hb. apply Hb. apply nth_In.
    apply Nat.mod_upper_bound. exact Hlen. }
  set (b1 := nth (i mod List.length hash) hash 0%Z).
  set (b2 := nth ((i + 1) mod List.length hash) hash 0%Z).
  assert (Hn : (0 <= b1 * 256 + b2 <= 65535)%Z)
    by (pose proof (Hbyte i); pose proof (Hbyte (i + 1)); subst b1 b2; lia).
  assert (Q1 : (0 <= inject_Z (b1 * 256 + b2))%Q)
    by (change 0%Q with (inject_Z 0); rewrite <- Zle_Qle; lia).
  assert (Q2 : (inject_Z (b1 * 256 + b2) <= 65535)%Q)
    by (change 65535%Q with (inject_Z 65535); rewrite <- Zle_Qle; lia).
  apply to_fixed6_bounds;
    change (inject_Z (b1 * 256 + b2) / (65535 # 1))%Q
      with (inject_Z (b1 * 256 + b2) * (1 # 65535))%Q; lra.
Qed.

Lemma nth_embedWithStub (sha256 : string -> list Z) (text : string) (d i : nat) :
  i < d -> nth i (embedWithStub sha256 text d) 0%Z = stub_value (sha256 text) i.
Proof.
  intro Hi. unfold embedWithStub.
  rewrite (nth_indep _ _ (stub_value (sha256 text) 0)) by (rewrite length_map, length_seq; exact Hi).
  rewrite map_nth, seq_nth by exact Hi. reflexivity.
Qed.

(** X19: for a 32-byte digest, the stub embedding has the requested dimension, every component lies in [-1000000, 1000000] (millionths of [-1, 1]) and the components repeat with period 32. *)
Theorem embedWithStub_shape (sha256 : string -> list Z) (text : string) (dimension : nat)
    (H32 : List.length (sha256 text) = 32)
    (Hb : Forall (fun b => (0 <= b <= 255)%Z) (sha256 text)) :
  List.length (embedWithStub sha256 text dimension) = dimension /\
  (forall x, In x (embedWithStub sha256 text dimension) -> (-1000000 <= x <= 1000000)%Z) /\
  (forall i, i + 32 < dimension ->
     nth (i + 32) (embedWithStub sha256 text dimension) 0%Z =
     nth i (embedWithStub sha256 text dimension) 0%Z).
Proof.
  split; [|split].
  - unfold embedWithStub. rewrite length_map, length_seq. reflexivity.
  - intros x Hx. unfold embedWithStub in Hx. apply in_map_iff in Hx as (i & <- & _).
    apply stub_value_bounds; [|exact Hb]. intro E. rewrite E in H32. discriminate.
  - intros i Hi. rewrite !nth_embedWithStub by lia. unfold stub_value. rewrite H32.
    replace (i + 32 + 1) with (i + 1 + 1 * 32) by lia.
    replace (i + 32) with (i + 1 * 32) by lia.
    rewrite !Nat.Div0.mod_add. reflexivity.
Qed.


Lemma embedWithStub_shape_witness :
  List.length (embedWithStub hash_ramp "hi" 40) = 40 /\
  nth 33 (embedWithStub hash_ramp "hi" 40) 0%Z = nth 1 (embedWithStub hash_ramp "hi" 40) 0%Z.
Proof.
  assert (H32 : List.length (hash_ramp "hi") = 32) by reflexivity.
  assert (Hb : Forall (fun b => (0 <= b <= 255)%Z) (hash_ramp "hi"))
    by (vm_compute; repeat constructor; discriminate).
  destruct (embedWithStub_shape hash_ramp "hi" 40 H32 Hb) as (Hl & _ & Hp).
  split; [exact Hl|]. apply (Hp 1). lia.
Defined.

Lemma redis_get_set_same (es : list RedisEntry) (key value : string) (exp : option Z) (now : Z) :
  redis_get (redis_set es key value exp) key now =
  if live now (mkRedisEntry key value exp) then Some value else None.
Proof. unfold redis_get, redis_set. cbn. rewrite String.eqb_refl. reflexivity. Qed.

Lemma find_redis_del_other (es : list RedisEntry) (key k : string) :
  k <> key ->
  find (fun e => String.eqb (re_key e) k) (redis_del es key) =
  find (fun e => String.eqb (re_key e) k) es.
Proof.
  intro Hk. unfold redis_del. induction es as [|x r IH]; cbn; [reflexivity|].
  destruct (String.eqb (re_key x) key) eqn:E; cbn.
  - apply String.eqb_eq in E. rewrite IH.
    replace (String.eqb (re_key x) k) with false; [reflexivity|].
    symmetry. apply String.eqb_neq. congruence.
  - destruct (String.eqb (re_key x) k); [reflexivity | exact IH].
Qed.

Lemma redis_get_del_other (es : list RedisEntry) (key k : string) (now : Z) :
  k <> key -> redis_get (redis_del es key) k now = redis_get es k now.
Proof. intro Hk. unfold redis_get. rewrite find_redis_del_other by exact Hk. reflexivity. Qed.

Lemma redis_get_set_other (es : list RedisEntry) (key value k : string) (exp : option Z) (now : Z) :
  k <> key -> redis_get (redis_set es key value exp) k now = redis_get es k now.
Proof.
  intro Hk. unfold redis_set. unfold redis_get at 1. cbn.
  replace (String.eqb key k) with false by (symmetry; apply String.eqb_neq; congruence).
  fold (redis_get (redis_del es key) k now). apply redis_get_del_other, Hk.
Qed.

Lemma redis_get_del_same (es : list RedisEntry) (key : string) (now : Z) :
  redis_get (redis_del es key) key now = None.
Proof.
  unfold redis_get, redis_del. induction es as [|x r IH]; cbn; [reflexivity|].
  destruct (String.eqb (re_key x) key) eqn:E; cbn; [exact IH|]. rewrite E. exact IH.
Qed.

(** X20: on a connected cache, [set] makes [get] return the value forever (no ttl or ttl 0) or until [now + ttl] (positive ttl), leaves the other keys unchanged, and does nothing for a negative ttl. *)
Theorem cache_set_get (c : Cache) (key value : string) (ttl : option Z) (now : Z)
    (Hc : connected c = true) :
  (forall k now', k <> key ->
     cache_get (cache_set c key value ttl now) k now' = cache_get c k now') /\
  ((ttl = None \/ ttl = Some 0%Z) -> forall now',
     cache_get (cache_set c key value ttl now) key now' = Some value) /\
  (forall t, ttl = Some t -> (0 < t)%Z -> forall now',
     cache_get (cache_set c key value ttl now) key now' =
     if (now' <? now + t)%Z then Some value else None) /\
  (forall t, ttl = Some t -> (t < 0)%Z -> cache_set c key value ttl now = c).
Proof.
  unfold cache_get, cache_set. rewrite Hc. cbn [negb].
  split; [|split; [|split]].
  - intros k now' Hk. destruct ttl as [t|].
    + destruct (t =? 0)%Z; [cbn; apply redis_get_set_other, Hk|].
      destruct (0 <? t)%Z; [cbn; apply redis_get_set_other, Hk|].
      rewrite Hc. reflexivity.
    + cbn. apply redis_get_set_other, Hk.
  - intros [-> | ->] now'; cbn; rewrite redis_get_set_same; reflexivity.
  - intros t -> Ht now'.
    replace (t =? 0)%Z with false by lia. replace (0 <? t)%Z with true by lia.
    cbn. rewrite redis_get_set_same. reflexivity.
  - intros t -> Ht.
    replace (t =? 0)%Z with false by lia. replace (0 <? t)%Z with false by lia.
    reflexivity.
Qed.

Lemma cache_set_get_witness :
  cache_get (cache_set (mkCache true []) "k" "v" (Some 10%Z) 100) "k" 105 = Some "v" /\
  cache_get (cache_set (mkCache true []) "k" "v" (Some 10%Z) 100) "k" 110 = None.
Proof.
  destruct (cache_set_get (mkCache true []) "k" "v" (Some 10%Z) 100 eq_refl)
    as (_ & _ & H & _).
  split; rewrite (H 10%Z eq_refl ltac:(lia)); reflexivity.
Defined.

(** X21: after [del], [get] of that key returns null and [get] of any other key is unchanged. *)
Theorem cache_del_get (c : Cache) (key : string) (now : Z) :
  cache_get (cache_del c key) key now = None /\
  (forall k, k <> key -> cache_get (cache_del c key) k now = cache_get c k now).
Proof.
  destruct c as [[|] es]; unfold cache_get, cache_del; cbn.
  - split; [apply redis_get_del_same|]. intros k Hk. apply redis_get_del_other, Hk.
  - split; [reflexivity | intros; reflexivity].
Qed.

(** X22: a disconnected cache returns null on [get], ignores [set] and [del], and every OpenAI embedding then calls the API and caches nothing. *)
Theorem cache_disconnected (c : Cache) (Hc : connected c = false) :
  (forall key now, cache_get c key now = None) /\
  (forall key value ttl now, cache_set c key value ttl now = c) /\
  (forall key, cache_del c key = c) /\
  (forall cfg sha256 sha256hex openai stringify parse text now,
     provider_is_openai cfg = true ->
     embed_cached cfg sha256 sha256hex openai stringify parse c text now =
     ([text], c, openai text (dimension_of cfg))).
Proof.
  unfold cache_get, cache_set, cache_del. rewrite Hc. cbn [negb].
  split; [intros; reflexivity|]. split; [intros; reflexivity|].
  split; [intros; reflexivity|].
  intros cfg sha256 sha256hex openai stringify parse text now Hp.
  unfold embed_cached, cache_get, cache_set. rewrite Hp, Hc. cbn [negb].
  destruct (openai text (dimension_of cfg)); reflexivity.
Qed.


Lemma cache_disconnected_witness :
  embed_cached openai_cfg (fun _ => []) (fun s => s) (fun _ _ => Some [1%Z; 2%Z])
    (fun _ => "[1,2]") (fun _ => None) (mkCache false []) "hi" 0
  = (["hi"], mkCache false [], Some [1%Z; 2%Z]).
Proof.
  destruct (cache_disconnected (mkCache false []) eq_refl) as (_ & _ & _ & H).
  apply H. reflexivity.
Defined.




